(** * CoordSorter: the route optimisation engine of [main.py]

    A shallow embedding of the optimisation methods of the main window
    class ([_check_coordinates], [_calculate_distance_3d],
    [optimize_with_nearest_neighbor], [optimize_with_simulated_annealing],
    the [distance_callback] closures of the two OR-Tools strategies and
    [run_optimization]) and the properties of them that the specification
    states.

    Numbers are the program's numbers: coordinates and distances are
    binary64 floats ([PrimFloat.float]), point indices are Python integers
    ([Z]), positions inside a list are naturals.  Python exceptions are an
    error monad.  The window object is a record that is passed along. *)

From Stdlib Require Import String Ascii Decimal DecimalString DecimalNat.
From Stdlib Require Import List ZArith Lia Bool Permutation Sorted.
From Stdlib Require Import Floats.
Import ListNotations.

Local Open Scope Z_scope.

#[local] Set Warnings "-inexact-float".

(** ** Exceptions *)

Inductive exn : Type :=
| IndexError
| ValueError
| OverflowError
| SolverError.

Inductive result (A : Type) : Type :=
| Ok (a : A)
| Raise (e : exn).

Arguments Ok {A} a.
Arguments Raise {A} e.

Definition bind {A B : Type} (r : result A) (k : A -> result B) : result B :=
  match r with
  | Ok a => k a
  | Raise e => Raise e
  end.

Notation "x <- r ;; k" := (bind r (fun x => k))
  (at level 61, r at next level, right associativity).

Fixpoint mapM {A B : Type} (f : A -> result B) (l : list A) : result (list B) :=
  match l with
  | [] => Ok []
  | a :: l' => b <- f a ;; bs <- mapM f l' ;; Ok (b :: bs)
  end.

(** ** Python and numpy primitives *)

(** [seq[k]] for a Python integer [k]: positions [0..len-1] from the front,
    [-len..-1] from the back, [IndexError] otherwise.  Python lists and the
    rows of a numpy array index the same way. *)
Definition py_index {A : Type} (l : list A) (k : Z) : result A :=
  let n := Z.of_nat (length l) in
  if (0 <=? k) && (k <? n) then
    match nth_error l (Z.to_nat k) with Some a => Ok a | None => Raise IndexError end
  else if (- n <=? k) && (k <? 0) then
    match nth_error l (Z.to_nat (n + k)) with Some a => Ok a | None => Raise IndexError end
  else Raise IndexError.

(** [list(range(a, b))] for naturals [a <= b]. *)
Definition py_range (a b : nat) : list Z :=
  map Z.of_nat (seq a (b - a)).

(** [l.pop(i)] for a position [i]: the list without its [i]-th entry. *)
Definition pop_at {A : Type} (i : nat) (l : list A) : list A :=
  firstn i l ++ skipn (S i) l.

(** A row of the [points] array: [[x, y, z]]. *)
Definition vec3 : Type := (float * float * float)%type.

(** [np.linalg.norm(a - b)] on rows of three floats: the difference is taken
    entry by entry, the squares are summed from the left and the root is
    taken. *)
Definition norm3 (a b : vec3) : float :=
  let '(ax, ay, az) := a in
  let '(bx, by_, bz) := b in
  let dx := (ax - bx)%float in
  let dy := (ay - by_)%float in
  let dz := (az - bz)%float in
  PrimFloat.sqrt (dx * dx + dy * dy + dz * dz)%float.

(** The same on rows of two floats (the planar strategy). *)
Definition norm2 (a b : float * float) : float :=
  let '(ax, ay) := a in
  let '(bx, by_) := b in
  let dx := (ax - bx)%float in
  let dy := (ay - by_)%float in
  PrimFloat.sqrt (dx * dx + dy * dy)%float.

(** [np.argmin]: the position of the first minimum; a NaN counts as the
    minimum and stops the scan; [ValueError] on an empty array. *)
Fixpoint argmin_scan (mp : float) (mi i : nat) (xs : list float) : nat :=
  match xs with
  | [] => mi
  | x :: xs' =>
      if negb (mp <=? x)%float then
        if is_nan x then i else argmin_scan x i (S i) xs'
      else argmin_scan mp mi (S i) xs'
  end.

Definition argmin (xs : list float) : result nat :=
  match xs with
  | [] => Raise ValueError
  | x :: xs' => if is_nan x then Ok 0%nat else Ok (argmin_scan x 0%nat 1%nat xs')
  end.

(** [int(f)] on a float: truncation toward zero; [ValueError] on NaN and
    [OverflowError] on an infinity. *)
Definition int_of_float (f : float) : result Z :=
  match Prim2SF f with
  | S754_zero _ => Ok 0
  | S754_infinity _ => Raise OverflowError
  | S754_nan => Raise ValueError
  | S754_finite s m e =>
      let a := if 0 <=? e then Z.pos m * 2 ^ e else Z.pos m / 2 ^ (- e) in
      Ok (if s then - a else a)
  end.

(** ** The window's data *)

(** An entry of [self.coordinates]: the tuple [(x, y, z, note)]. *)
Record coordinate : Type := mkCoordinate {
  cx : float;
  cy : float;
  cz : float;
  note : string
}.

(** What [self.log] is called with.  The f-strings are kept as their parts:
    the number formatting ([:.2f]) and the time stamp are left out. *)
Inductive log_entry : Type :=
| LogText (s : string)
| LogUnknownAlgorithm (algorithm : string)
| LogError (prefix : string) (e : exn)
| LogDone (prefix : string) (distance : float)
| LogOrder (order : list Z).

Record window : Type := mkWindow {
  coordinates : list coordinate;
  optimized_path : list Z;
  log_view : list log_entry
}.

Definition log (w : window) (m : log_entry) : window :=
  mkWindow (coordinates w) (optimized_path w) (log_view w ++ [m]).

Definition set_optimized_path (w : window) (p : list Z) : window :=
  mkWindow (coordinates w) p (log_view w).

(** [np.array([[x, y, z] for x, y, z, _ in self.coordinates])] *)
Definition points_of (cs : list coordinate) : list vec3 :=
  map (fun c => (cx c, cy c, cz c)) cs.

(** [np.array([[x, y] for x, y, _, _ in self.coordinates])] *)
Definition locations_2d_of (cs : list coordinate) : list (float * float) :=
  map (fun c => (cx c, cy c)) cs.

(** ** [_check_coordinates] *)

Definition _check_coordinates (w : window) : bool * window :=
  if (length (coordinates w) <? 2)%nat then
    (false, log w (LogText "错误：需要至少2个坐标点才能进行优化"))
  else (true, w).

(** ** [_calculate_distance_3d]

    [sum(norm(points[path[i]] - points[path[i-1]]) for i in range(1, len(path)))]:
    the legs are added from the left onto the start value 0.  The positions
    [i-1] and [i] are always inside [path], so the walk is written on the
    list; the look-ups in [points] are numpy's and can raise. *)
Fixpoint sum_legs (points : list vec3) (prev : Z) (rest : list Z) (acc : float)
  : result float :=
  match rest with
  | [] => Ok acc
  | k :: rest' =>
      a <- py_index points k ;;
      b <- py_index points prev ;;
      sum_legs points k rest' (acc + norm3 a b)%float
  end.

Definition _calculate_distance_3d (points : list vec3) (path : list Z) : result float :=
  match path with
  | [] => Ok 0%float
  | p0 :: rest => sum_legs points p0 rest 0%float
  end.

(** [_draw_optimized_path]: the drawing itself is outside the model, but it
    first reads [self.coordinates[i]] for every [i] of the path. *)
Definition _draw_optimized_path (w : window) (path : list Z) : result unit :=
  _ <- mapM (py_index (coordinates w)) path ;; Ok tt.

(** [_log_optimization_result] *)
Definition _log_optimization_result (w : window) (path : list Z) (distance : float)
    (algorithm_name : string) : window :=
  let prefix :=
    match algorithm_name with EmptyString => "优化"%string | _ => algorithm_name end in
  log (log w (LogDone prefix distance)) (LogOrder (map (fun i => i + 1) path)).

(** ** [optimize_with_nearest_neighbor] *)

(** The first half of the loop body: the distances from the current point to
    the unvisited ones, the position of the nearest and its index. *)
Definition nn_select (points : list vec3) (unvisited : list Z) (current : Z)
  : result (nat * Z) :=
  current_point <- py_index points current ;;
  distances <- mapM (fun i => p <- py_index points i ;; Ok (norm3 current_point p))
                 unvisited ;;
  min_idx <- argmin distances ;;
  nearest_idx <- py_index unvisited (Z.of_nat min_idx) ;;
  Ok (min_idx, nearest_idx).

(** The [while unvisited:] loop.  Every round removes one entry of
    [unvisited], so [fuel] rounds are enough when [fuel] is its length;
    [None] is the loop running out of rounds. *)
Fixpoint nn_loop (fuel : nat) (points : list vec3) (unvisited path : list Z) (current : Z)
  : option (result (list Z)) :=
  match unvisited with
  | [] => Some (Ok path)
  | _ :: _ =>
      match fuel with
      | O => None
      | S fuel' =>
          match nn_select points unvisited current with
          | Raise e => Some (Raise e)
          | Ok (min_idx, nearest_idx) =>
              nn_loop fuel' points (pop_at min_idx unvisited) (path ++ [nearest_idx])
                nearest_idx
          end
      end
  end.

(** The path the strategy computes, before it is stored and drawn. *)
Definition nearest_neighbor_path (cs : list coordinate) : option (result (list Z)) :=
  let n := length cs in
  let points := points_of cs in
  let unvisited := py_range 1 n in
  nn_loop (length unvisited) points unvisited [0] 0.

(** A [try: ... except Exception as e: self.log(prefix + str(e))] block: the
    body works on the window and either finishes or raises; what it did to
    the window before raising stays. *)
Definition try_except (prefix : string) (body : window -> window * result unit)
    (w : window) : window :=
  match body w with
  | (w', Ok _) => w'
  | (w', Raise e) => log w' (LogError prefix e)
  end.

(** What follows the loop: store the path, draw it, measure it and log the
    result. *)
Definition nn_finish (path : list Z) (w : window) : window * result unit :=
  let w := set_optimized_path w path in
  match _draw_optimized_path w path with
  | Raise e => (w, Raise e)
  | Ok _ =>
      match _calculate_distance_3d (points_of (coordinates w)) path with
      | Raise e => (w, Raise e)
      | Ok total_distance =>
          (_log_optimization_result w path total_distance "最近邻算法", Ok tt)
      end
  end.

Definition optimize_with_nearest_neighbor (w : window) : option window :=
  let '(ok, w) := _check_coordinates w in
  if negb ok then Some w
  else
    let w := log w (LogText "开始最近邻算法优化...") in
    match nearest_neighbor_path (coordinates w) with
    | None => None
    | Some r =>
        Some (try_except "最近邻优化过程中发生错误: "
                (fun w => match r with
                          | Raise e => (w, Raise e)
                          | Ok path => nn_finish path w
                          end) w)
    end.

(** ** [optimize_with_simulated_annealing] *)

(** The random numbers of a run: the [k]-th call of
    [np.random.randint(0, n, 2)] returns [randint k] and the [k]-th call of
    [np.random.random()] returns [random k].  Nothing is assumed of them:
    numpy draws the integers from [0..n-1], and the slice of the 2-opt move
    is Python's also for larger ones. *)
Record random_source : Type := mkRandomSource {
  randint : nat -> nat * nat;
  random : nat -> float
}.

Record sa_state : Type := mkSaState {
  current_path : list Z;
  current_distance : float;
  best_path : list Z;
  best_distance : float;
  randint_calls : nat;
  random_calls : nat
}.

Definition initial_temp : float := 100%float.
Definition final_temp : float := 0.01%float.
Definition alpha : float := 0.95%float.

Definition iterations_per_temp (n : nat) : nat := Nat.max 100 (n * 2).

(** [new_path[i:j+1] = reversed(new_path[i:j+1])] on a copy of the path. *)
Definition reverse_slice (path : list Z) (i j : nat) : list Z :=
  firstn i path ++ rev (firstn (j + 1 - i) (skipn i path)) ++ skipn (j + 1) path.

(** The local function [calculate_distance]: the open length plus the leg
    from the last entry back to the first. *)
Definition calculate_distance (points : list vec3) (path : list Z) : result float :=
  path_distance <- _calculate_distance_3d points path ;;
  last_idx <- py_index path (-1) ;;
  a <- py_index points last_idx ;;
  first_idx <- py_index path 0 ;;
  b <- py_index points first_idx ;;
  Ok (path_distance + norm3 a b)%float.

Section Annealing.

(** [np.exp] and the random numbers are given from outside. *)
Variable exp : float -> float.
Variable rs : random_source.
Variable points : list vec3.

(** The acceptance branch of the inner loop body. *)
Definition sa_accept (new_path : list Z) (new_distance : float) (st : sa_state)
  : sa_state :=
  if (new_distance <? best_distance st)%float then
    mkSaState new_path new_distance new_path new_distance
      (randint_calls st) (random_calls st)
  else
    mkSaState new_path new_distance (best_path st) (best_distance st)
      (randint_calls st) (random_calls st).

(** One pass of the body of [for iter_idx in range(iterations_per_temp)].
    The progress label written every tenth pass, with its counters
    [iteration_count] and [max_iterations], is left out: it changes nothing
    but the text of the dialog. *)
Definition sa_iteration (temp : float) (st : sa_state) : result sa_state :=
  let '(a, b) := randint rs (randint_calls st) in
  let i := Nat.min a b in
  let j := Nat.max a b in
  let st := mkSaState (current_path st) (current_distance st) (best_path st)
              (best_distance st) (S (randint_calls st)) (random_calls st) in
  if (i =? j)%nat then Ok st
  else
    let new_path := reverse_slice (current_path st) i j in
    new_distance <- calculate_distance points new_path ;;
    let delta := (new_distance - current_distance st)%float in
    if (delta <? 0)%float then Ok (sa_accept new_path new_distance st)
    else
      let u := random rs (random_calls st) in
      let st := mkSaState (current_path st) (current_distance st) (best_path st)
                  (best_distance st) (randint_calls st) (S (random_calls st)) in
      if (u <? exp (- delta / temp))%float then
        Ok (sa_accept new_path new_distance st)
      else Ok st.

(** The [for] loop at one temperature. *)
Fixpoint sa_inner (count : nat) (temp : float) (st : sa_state) : result sa_state :=
  match count with
  | O => Ok st
  | S count' => st' <- sa_iteration temp st ;; sa_inner count' temp st'
  end.

(** [while temp > final_temp:] with [temp *= alpha] at the end of the body.
    [fuel] bounds the number of rounds; [None] is running out of it. *)
Fixpoint sa_outer (fuel : nat) (iters : nat) (temp : float) (st : sa_state)
  : option (result sa_state) :=
  if (final_temp <? temp)%float then
    match fuel with
    | O => None
    | S fuel' =>
        match sa_inner iters temp st with
        | Raise e => Some (Raise e)
        | Ok st' => sa_outer fuel' iters (temp * alpha)%float st'
        end
    end
  else Some (Ok st).

(** The state before the main loop. *)
Definition sa_init : result sa_state :=
  let n := length points in
  let current_path := py_range 0 n in
  current_distance <- calculate_distance points current_path ;;
  Ok (mkSaState current_path current_distance current_path current_distance 0 0).

(** The search: initial solution, then the main loop. *)
Definition simulated_annealing_search (fuel : nat) : option (result sa_state) :=
  match sa_init with
  | Raise e => Some (Raise e)
  | Ok st => sa_outer fuel (iterations_per_temp (length points)) initial_temp st
  end.

End Annealing.

Definition sa_finish (st : sa_state) (w : window) : window * result unit :=
  let w := set_optimized_path w (best_path st) in
  match _draw_optimized_path w (best_path st) with
  | Raise e => (w, Raise e)
  | Ok _ => (_log_optimization_result w (best_path st) (best_distance st) "模拟退火算法", Ok tt)
  end.

Definition optimize_with_simulated_annealing (exp : float -> float) (rs : random_source)
    (fuel : nat) (w : window) : option window :=
  let '(ok, w) := _check_coordinates w in
  if negb ok then Some w
  else
    let w := log w (LogText "开始模拟退火优化...") in
    match simulated_annealing_search exp rs (points_of (coordinates w)) fuel with
    | None => None
    | Some r =>
        Some (try_except "模拟退火优化过程中发生错误: "
                (fun w => match r with
                          | Raise e => (w, Raise e)
                          | Ok st => sa_finish st w
                          end) w)
    end.

(** ** The OR-Tools strategies

    The routing solver is outside the program.  It is given the number of
    nodes and the cost callback, and what the program reads back from a
    solution is the walk from [routing.Start(0)] to the end of the route and
    [ObjectiveValue()].  The index manager's [IndexToNode] is a parameter
    too. *)

(** [int] as a float, for [ObjectiveValue() / 100]. *)
Definition float_of_int (z : Z) : float :=
  SF2Prim (binary_normalize prec emax z 0 false).

Section Solver.

Variable IndexToNode : Z -> Z.
Variable SolveWithParameters :
  nat -> (Z -> Z -> result Z) -> result (option (list Z * Z)).

(** [distance_callback] of [optimize_with_ortools] *)
Definition distance_callback (locations : list vec3) (from_index to_index : Z)
  : result Z :=
  let from_node := IndexToNode from_index in
  let to_node := IndexToNode to_index in
  a <- py_index locations from_node ;;
  b <- py_index locations to_node ;;
  int_of_float (norm3 a b * 100)%float.

(** [distance_callback] of [optimize_xy_only] *)
Definition distance_callback_xy (locations_2d : list (float * float))
    (from_index to_index : Z) : result Z :=
  let from_node := IndexToNode from_index in
  let to_node := IndexToNode to_index in
  a <- py_index locations_2d from_node ;;
  b <- py_index locations_2d to_node ;;
  int_of_float (norm2 a b * 100)%float.

(** The [try] body shared in shape by the two strategies. *)
Definition solver_body (n : nat) (callback : Z -> Z -> result Z)
    (algorithm_name failed : string) (w : window) : window * result unit :=
  match SolveWithParameters n callback with
  | Raise e => (w, Raise e)
  | Ok None => (log w (LogText failed), Ok tt)
  | Ok (Some (path, objective)) =>
      let w := set_optimized_path w path in
      match _draw_optimized_path w path with
      | Raise e => (w, Raise e)
      | Ok _ =>
          let total_distance := (float_of_int objective / 100)%float in
          (_log_optimization_result w path total_distance algorithm_name, Ok tt)
      end
  end.

Definition optimize_with_ortools (w : window) : window :=
  let '(ok, w) := _check_coordinates w in
  if negb ok then w
  else
    let w := log w (LogText "开始OR-Tools 3D路径优化...") in
    let locations := points_of (coordinates w) in
    try_except "OR-Tools优化过程中发生错误: "
      (solver_body (length locations) (distance_callback locations)
         "OR-Tools 3D优化" "优化失败，请检查输入数据") w.

Definition optimize_xy_only (w : window) : window :=
  let '(ok, w) := _check_coordinates w in
  if negb ok then w
  else
    let w := log w (LogText "开始平面优化...") in
    let locations_2d := locations_2d_of (coordinates w) in
    try_except "平面优化过程中发生错误: "
      (solver_body (length locations_2d) (distance_callback_xy locations_2d)
         "平面优化" "平面优化失败，请检查输入数据") w.

(** ** [run_optimization]

    [algorithm] is the text of the combo box.  Every strategy catches its
    own exceptions, so the [except] of this method has nothing to catch,
    and the progress dialog that [finally] closes is not part of the
    window record. *)
Definition run_optimization (exp : float -> float) (rs : random_source) (fuel : nat)
    (algorithm : string) (w : window) : option window :=
  let '(ok, w) := _check_coordinates w in
  if negb ok then Some w
  else if String.eqb algorithm "平面优化 (计算高效)" then Some (optimize_xy_only w)
  else if String.eqb algorithm "智能优化 (OR-Tools)" then Some (optimize_with_ortools w)
  else if String.eqb algorithm "快速优化 (最近邻算)" then optimize_with_nearest_neighbor w
  else if String.eqb algorithm "全局优化 (模拟退火)" then
    optimize_with_simulated_annealing exp rs fuel w
  else Some (log w (LogUnknownAlgorithm algorithm)).

End Solver.

(** * Definitions used to state the properties *)

(** A point index of a set of [n] points. *)
Definition in_range (n : nat) (k : Z) : Prop := 0 <= k < Z.of_nat n.

(** An integer that numpy accepts as a row index of an array of [n] rows:
    [-n..-1] count from the back. *)
Definition np_valid (n : nat) (k : Z) : Prop := - Z.of_nat n <= k < Z.of_nat n.

(** A tour of [n] points: every index of [0..n-1] exactly once. *)
Definition is_tour (n : nat) (path : list Z) : Prop :=
  Permutation path (py_range 0 n).

(** The point with index [k], and the distance between two indices as the
    strategies compute it. *)
Definition point_at (points : list vec3) (k : Z) : vec3 :=
  nth (Z.to_nat k) points (0, 0, 0)%float.

Definition dist (points : list vec3) (u v : Z) : float :=
  norm3 (point_at points u) (point_at points v).

(** A float that takes part in the order of the floats: anything but NaN. *)
Definition sf_ordered (a : spec_float) : bool :=
  match a with S754_nan => false | _ => true end.

(** A float that is zero, a finite number or an infinity, with the given
    sign; [sf_plus] is the case of the sign of the positive numbers; a
    float that is zero or a finite number. *)
Definition sf_signed (s : bool) (a : spec_float) : Prop :=
  match a with
  | S754_nan => False
  | S754_zero s' | S754_infinity s' | S754_finite s' _ _ => s' = s
  end.

Definition sf_plus (a : spec_float) : bool :=
  match a with
  | S754_zero false | S754_infinity false | S754_finite false _ _ => true
  | _ => false
  end.

Definition sf_finite (a : spec_float) : bool :=
  match a with
  | S754_zero _ | S754_finite _ _ _ => true
  | _ => false
  end.

(** Every coordinate of every point is a finite number. *)
Definition coordinates_finite (cs : list coordinate) : Prop :=
  Forall (fun c => is_finite (cx c) = true /\ is_finite (cy c) = true /\
                   is_finite (cz c) = true) cs.





(** The closed length of a tour written as the specification does: the sum
    over the positions [1..len-1] of the distance between the entries at
    [i] and [i-1], plus the distance from the last entry to the first. *)
Definition leg_length (points : list vec3) (path : list Z) (i : nat) : float :=
  dist points (nth i path 0) (nth (i - 1) path 0).

Definition open_length (points : list vec3) (path : list Z) : float :=
  fold_left (fun acc i => (acc + leg_length points path i)%float)
    (seq 1 (length path - 1)) 0%float.

Definition closed_length (points : list vec3) (path : list Z) : float :=
  PrimFloat.add (open_length points path) (dist points (last path 0) (nth 0 path 0)).

(** The number of rounds of the cooling loop on its own: how often
    [temp *= alpha] runs before [temp > final_temp] fails. *)
Fixpoint cooling_rounds (fuel : nat) (temp : float) : option nat :=
  if (final_temp <? temp)%float then
    match fuel with
    | O => None
    | S fuel' => option_map S (cooling_rounds fuel' (temp * alpha)%float)
    end
  else Some O.

Section AnnealingTrace.

Variable exp : float -> float.
Variable rs : random_source.
Variable points : list vec3.

(** The states after each pass of the inner loop body, in order. *)
Fixpoint sa_inner_trace (count : nat) (temp : float) (st : sa_state) : list sa_state :=
  match count with
  | O => []
  | S count' =>
      match sa_iteration exp rs points temp st with
      | Ok st' => st' :: sa_inner_trace count' temp st'
      | Raise _ => []
      end
  end.

Fixpoint sa_outer_trace (fuel iters : nat) (temp : float) (st : sa_state)
  : list sa_state :=
  if (final_temp <? temp)%float then
    match fuel with
    | O => []
    | S fuel' =>
        let tr := sa_inner_trace iters temp st in
        tr ++ sa_outer_trace fuel' iters (temp * alpha)%float (last tr st)
    end
  else [].

(** The states of a run: the initial one, then one per inner pass. *)
Definition sa_trace (fuel : nat) : list sa_state :=
  match sa_init points with
  | Ok st => st :: sa_outer_trace fuel (iterations_per_temp (length points)) initial_temp st
  | Raise _ => []
  end.

End AnnealingTrace.

(** What one pass of the inner loop can do to the tours and costs: leave
    them, or accept a candidate, which becomes the best exactly when its
    cost is strictly below the best cost. *)
Inductive sa_step (points : list vec3) (s s' : sa_state) : Prop :=
| step_unchanged :
    current_path s' = current_path s -> current_distance s' = current_distance s ->
    best_path s' = best_path s -> best_distance s' = best_distance s ->
    sa_step points s s'
| step_accept_improve : forall new_path new_distance,
    calculate_distance points new_path = Ok new_distance ->
    (new_distance <? best_distance s)%float = true ->
    current_path s' = new_path -> current_distance s' = new_distance ->
    best_path s' = new_path -> best_distance s' = new_distance ->
    sa_step points s s'
| step_accept_keep : forall new_path new_distance,
    calculate_distance points new_path = Ok new_distance ->
    (new_distance <? best_distance s)%float = false ->
    current_path s' = new_path -> current_distance s' = new_distance ->
    best_path s' = best_path s -> best_distance s' = best_distance s ->
    sa_step points s s'.

(** [s'] is the state after one pass of the inner loop body from [s], at
    some temperature. *)
Definition sa_iterates (exp : float -> float) (rs : random_source) (points : list vec3)
    (s s' : sa_state) : Prop :=
  exists temp, sa_iteration exp rs points temp s = Ok s'.

(** What holds of the state at every point of a run: both paths are tours,
    both costs are the closed lengths that [calculate_distance] gives for
    them, and the current cost is not below the best one. *)
Definition sa_invariant (points : list vec3) (s : sa_state) : Prop :=
  is_tour (length points) (current_path s) /\
  is_tour (length points) (best_path s) /\
  calculate_distance points (current_path s) = Ok (current_distance s) /\
  calculate_distance points (best_path s) = Ok (best_distance s) /\
  (current_distance s <? best_distance s)%float = false.

(** The costs are numbers and the best one is at most the current one. *)
Definition sa_costs_ordered (s : sa_state) : Prop :=
  is_nan (current_distance s) = false /\
  (best_distance s <=? current_distance s)%float = true.

(** The best cost of [s'] is the best cost of [s] or strictly below it. *)
Definition best_not_above (s s' : sa_state) : Prop :=
  best_distance s' = best_distance s \/
  (best_distance s' <? best_distance s)%float = true.

(** [np.exp] of NaN is NaN. *)
Definition exp_keeps_nan (exp : float -> float) : Prop :=
  forall x, is_nan x = true -> is_nan (exp x) = true.

(** [round(f)] of Python on a float: the nearest integer, the even one on a
    tie. *)
Definition py_round (f : float) : result Z :=
  match Prim2SF f with
  | S754_zero _ => Ok 0
  | S754_infinity _ => Raise OverflowError
  | S754_nan => Raise ValueError
  | S754_finite s m e =>
      let a :=
        if 0 <=? e then Z.pos m * 2 ^ e
        else
          let den := 2 ^ (- e) in
          let q := Z.pos m / den in
          let r := Z.pos m mod den in
          if 2 * r <? den then q
          else if den <? 2 * r then q + 1
          else if Z.even q then q else q + 1 in
      Ok (if s then - a else a)
  end.

(** The magnitude of a finite float as a fraction [num / den], [den > 0]. *)
Definition magnitude (f : float) : option (Z * Z) :=
  match Prim2SF f with
  | S754_zero _ => Some (0, 1)
  | S754_finite _ m e =>
      Some (if 0 <=? e then (Z.pos m * 2 ^ e, 1) else (Z.pos m, 2 ^ (- e)))
  | _ => None
  end.

(** The four corners of the specification's scenario. *)
Definition square : list coordinate :=
  [ mkCoordinate 0 0 0 "p1"; mkCoordinate 10 0 0 "p2";
    mkCoordinate 10 10 0 "p3"; mkCoordinate 0 10 0 "p4" ].

(** A window holding the square, and a fixed supply of random numbers, to
    run the strategies on. *)
Definition square_window : window := mkWindow square [] [].

Definition fixed_draws : random_source :=
  mkRandomSource (fun k => (Nat.modulo k 4, Nat.modulo (3 * k + 1) 4))
    (fun _ => 0.5%float).


(** * Further definitions *)

(** Two floats that differ at most in their sign. *)
Definition sf_same_abs (x y : spec_float) : Prop :=
  match x, y with
  | S754_nan, S754_nan => True
  | S754_zero _, S754_zero _ => True
  | S754_infinity _, S754_infinity _ => True
  | S754_finite _ m e, S754_finite _ m' e' => m = m' /\ e = e'
  | _, _ => False
  end.

(** A float that is NaN or has the sign of the positive numbers. *)
Definition sf_plus_or_nan (a : spec_float) : bool :=
  match a with
  | S754_nan => true
  | _ => sf_plus a
  end.

(** [w'] has the points of [w] and its log with entries added at the end. *)
Definition extends_window (w w' : window) : Prop :=
  coordinates w' = coordinates w /\
  exists entries, log_view w' = log_view w ++ entries.


(** Two points at distance 5, with a path stored from an earlier run. *)
Definition two_points : list coordinate :=
  [ mkCoordinate 0 0 0 "a"; mkCoordinate 3 4 0 "b" ].

Definition two_points_window : window := mkWindow two_points [1; 0] [].

(** ** [export_file]

    Outside the program are the file name that the save dialog returns (the
    empty string when it is cancelled), [open] and [f.write], which can
    raise, and the formatting [:.6f] of a float.  What the method does to
    the file is the second component of its result: [None] when no file is
    opened, and the lines written, in order, into the file that was opened
    (and so emptied). *)

Definition newline : string := String "010"%char EmptyString.

Section Exporting.

Variable format_6f : float -> string.
Variable open_for_writing : string -> result unit.
Variable write : string -> result unit.

(** [f"{x:.6f},{y:.6f},{z:.6f},{note}\n"] *)
Definition record_line (c : coordinate) : string :=
  (format_6f (cx c) ++ "," ++ format_6f (cy c) ++ "," ++ format_6f (cz c) ++ ","
   ++ note c ++ newline)%string.

(** The loop [for idx in self.optimized_path:] inside the [with] block. *)
Fixpoint write_records (coords : list coordinate) (path : list Z) (written : list string)
  : list string * result unit :=
  match path with
  | [] => (written, Ok tt)
  | idx :: rest =>
      match py_index coords idx with
      | Raise e => (written, Raise e)
      | Ok c =>
          match write (record_line c) with
          | Raise e => (written, Raise e)
          | Ok _ => write_records coords rest (written ++ [record_line c])
          end
      end
  end.

Definition export_file (filename : string) (w : window) : window * option (list string) :=
  match optimized_path w with
  | [] => (log w (LogText "错误：请先进行路径优化"), None)
  | _ :: _ =>
      match filename with
      | EmptyString => (w, None)
      | _ =>
          match open_for_writing filename with
          | Raise e => (log w (LogError "文件导出失败: " e), None)
          | Ok _ =>
              match write_records (coordinates w) (optimized_path w) [] with
              | (written, Raise e) =>
                  (log w (LogError "文件导出失败: " e), Some written)
              | (written, Ok _) =>
                  (log w (LogText ("成功导出文件: " ++ filename)), Some written)
              end
          end
      end
  end.

End Exporting.

(** ** [_parse_coordinate_file], [update_coord_list], [plot_points],
       [import_file]

    Text is a string of bytes.  [str(n)] of a natural number is its decimal
    digits; [s.split(c)] and [s.strip(c)] for one character [c] are written
    out; [s.strip()], [float(s)] and [int(s)] are Python's and are given
    from outside, [None] and [Raise] standing for their [ValueError]. *)

Definition str_nat (n : nat) : string := NilEmpty.string_of_uint (Nat.to_uint n).

Fixpoint split_on (sep : ascii) (s : string) : list string :=
  match s with
  | EmptyString => [EmptyString]
  | String c s' =>
      if Ascii.eqb c sep then EmptyString :: split_on sep s'
      else
        match split_on sep s' with
        | [] => [String c EmptyString]
        | p :: ps => String c p :: ps
        end
  end.

Fixpoint lstrip_char (c : ascii) (s : string) : string :=
  match s with
  | EmptyString => EmptyString
  | String a s' => if Ascii.eqb a c then lstrip_char c s' else s
  end.

Fixpoint rstrip_char (c : ascii) (s : string) : string :=
  match s with
  | EmptyString => EmptyString
  | String a s' =>
      match rstrip_char c s' with
      | EmptyString => if Ascii.eqb a c then EmptyString else String a EmptyString
      | r => String a r
      end
  end.

Definition strip_char (c : ascii) (s : string) : string :=
  rstrip_char c (lstrip_char c s).

(** Every character of a string has a property. *)
Fixpoint forall_chars (P : ascii -> Prop) (s : string) : Prop :=
  match s with
  | EmptyString => True
  | String a s' => P a /\ forall_chars P s'
  end.

(** The widgets that the list of points and the selection use. *)
Record gui : Type := mkGui {
  list_coords : list string;
  chk_markers : bool;
  selected_point_index : option Z;
  selected_point_marker : option vec3;
  blink_timer_active : bool
}.

Definition MAX_POINTS : nat := 3000.

Section Importing.

Variable strip : string -> string.
Variable py_float : string -> option float.
Variable py_int : string -> result Z.
Variable format_2f : float -> string.
Variable format_exc : exn -> string.

(** The [try] block for one line that has at least four fields: the point,
    or [None] for the [ValueError] of a [float]. *)
Definition parse_fields (parts : list string) : option coordinate :=
  match py_float (strip (nth 0 parts EmptyString)) with
  | None => None
  | Some x =>
      match py_float (strip (nth 1 parts EmptyString)) with
      | None => None
      | Some y =>
          match py_float (strip (nth 2 parts EmptyString)) with
          | None => None
          | Some z => Some (mkCoordinate x y z (strip (nth 3 parts EmptyString)))
          end
      end
  end.

(** The body of [for line_num, line in enumerate(f, 1):]. *)
Definition parse_line (line_num : nat) (raw : string) (w : window) : window :=
  let line := strip raw in
  match line with
  | EmptyString => w
  | _ =>
      let parts := split_on ","%char line in
      if (4 <=? length parts)%nat then
        match parse_fields parts with
        | Some c => mkWindow (coordinates w ++ [c]) (optimized_path w) (log_view w)
        | None =>
            log w (LogText ("第" ++ str_nat line_num ++ "行数据格式错误: " ++ line))
        end
      else w
  end.

Fixpoint parse_lines (line_num : nat) (lines : list string) (w : window) : window :=
  match lines with
  | [] => w
  | raw :: rest => parse_lines (S line_num) rest (parse_line line_num raw w)
  end.

(** [_parse_coordinate_file]: [lines] are the lines that the file gives
    before it ends or before reading it raises [failure]; a file that cannot
    be opened gives no line and the failure. *)
Definition _parse_coordinate_file (lines : list string) (failure : option exn)
    (w : window) : window * result unit :=
  let w := mkWindow [] (optimized_path w) (log_view w) in
  let w := parse_lines 1 lines w in
  match failure with
  | None => (w, Ok tt)
  | Some e => (w, Raise e)
  end.

(** The point that a line gives, if it gives one, and the points of the
    lines of a file, in their order. *)
Definition line_point (raw : string) : option coordinate :=
  match strip raw with
  | EmptyString => None
  | String a s =>
      let parts := split_on ","%char (String a s) in
      if (4 <=? length parts)%nat then parse_fields parts else None
  end.

Definition parsed_points (lines : list string) : list coordinate :=
  flat_map (fun raw => match line_point raw with Some c => [c] | None => [] end) lines.

(** [update_coord_list]: the rows of the list, one per point. *)
Definition coord_item (idx : nat) (c : coordinate) : string :=
  ("[" ++ str_nat (idx + 1) ++ "] " ++ format_2f (cx c) ++ ", " ++ format_2f (cy c)
   ++ ", " ++ format_2f (cz c) ++ " - " ++ note c)%string.

Fixpoint coord_items (idx : nat) (cs : list coordinate) : list string :=
  match cs with
  | [] => []
  | c :: cs' => coord_item idx c :: coord_items (S idx) cs'
  end.

Definition update_coord_list (w : window) (g : gui) : gui :=
  mkGui (coord_items 0 (coordinates w)) (chk_markers g) (selected_point_index g)
    (selected_point_marker g) (blink_timer_active g).

(** [plot_points], as far as the points and the log go: the plots and the
    markers themselves are outside the model. *)
Definition plot_points (w : window) : window :=
  match coordinates w with
  | [] => w
  | _ :: _ =>
      if (MAX_POINTS <? length (coordinates w))%nat then
        let w := log w (LogText ("警告：点数超过" ++ str_nat MAX_POINTS ++ "，将只显示前"
                                 ++ str_nat MAX_POINTS ++ "个点")) in
        mkWindow (firstn MAX_POINTS (coordinates w)) (optimized_path w) (log_view w)
      else w
  end.

(** [_clear_3d_view], as far as the widgets of the model go. *)
Definition _clear_3d_view (g : gui) : gui :=
  mkGui (list_coords g) (chk_markers g) (selected_point_index g) None
    (blink_timer_active g).

(** [import_file]: [filename] is what the open dialog returns, the empty
    string when it is cancelled. *)
Definition import_file (filename : string) (lines : list string) (failure : option exn)
    (w : window) (g : gui) : window * gui :=
  let g := _clear_3d_view g in
  match filename with
  | EmptyString => (w, g)
  | _ =>
      match _parse_coordinate_file lines failure w with
      | (w, Raise e) =>
          (log (log w (LogError "文件导入失败: " e)) (LogText (format_exc e)), g)
      | (w, Ok _) =>
          let g := update_coord_list w g in
          let w := plot_points w in
          (log w (LogText ("成功导入文件: " ++ filename ++ "，共"
                           ++ str_nat (length (coordinates w)) ++ "个坐标点")), g)
      end
  end.

(** [on_coord_selected]: [current_item] is the text of the selected row, if
    a row is selected.  An exception of [int] or of the look-up of the point
    is not caught by the method. *)
Definition on_coord_selected (current_item : option string) (w : window) (g : gui)
  : gui * result unit :=
  match coordinates w with
  | [] => (g, Ok tt)
  | _ :: _ =>
      if negb (chk_markers g) then (g, Ok tt)
      else
        let g := mkGui (list_coords g) (chk_markers g) (selected_point_index g) None false in
        match current_item with
        | None => (g, Ok tt)
        | Some text =>
            match py_int (strip_char "["%char (hd EmptyString (split_on "]"%char text))) with
            | Raise e => (g, Raise e)
            | Ok k =>
                let index := k - 1 in
                let g := mkGui (list_coords g) (chk_markers g) (Some index) None false in
                match py_index (coordinates w) index with
                | Raise e => (g, Raise e)
                | Ok c =>
                    (mkGui (list_coords g) (chk_markers g) (Some index)
                       (Some (cx c, cy c, cz c)) true, Ok tt)
                end
            end
        end
  end.

End Importing.

(** A reading of decimal digits, to stand for [int] where one is needed. *)
Definition decimal_int (s : string) : result Z :=
  match NilZero.uint_of_string s with
  | Some d => Ok (Z.of_nat (Nat.of_uint d))
  | None => Raise ValueError
  end.

(** ** The 3D view: [mousePressEvent], [mouseMoveEvent], [lock_rotation]

    The angles are Python floats.  The centre of the view is a [QVector3D],
    and the panning of it (with [np.cos], [np.sin] and the vector
    arithmetic of Qt) is given from outside. *)

Inductive mouse_buttons : Type :=
| LeftButton
| RightButton
| OtherButtons.

Record view (C : Type) : Type := mkView {
  _rotation_locked : bool;
  _last_mouse_pos : option (Z * Z);
  center : C;
  azimuth : float;
  elevation : float;
  distance : float
}.

Arguments mkView {C}.
Arguments _rotation_locked {C}.
Arguments _last_mouse_pos {C}.
Arguments center {C}.
Arguments azimuth {C}.
Arguments elevation {C}.
Arguments distance {C}.

(** [max(-90, min(90, e))]: [min] and [max] keep their first argument unless
    the second is strictly smaller, strictly larger. *)
Definition clamp_elevation (e : float) : float :=
  let m := if (e <? 90)%float then e else 90%float in
  if (-90 <? m)%float then m else (-90)%float.

Section Mouse.

Variable C : Type.
Variable pan : float -> float -> Z -> Z -> C -> C.

Definition mousePressEvent (x y : Z) (v : view C) : view C :=
  mkView (_rotation_locked v) (Some (x, y)) (center v) (azimuth v) (elevation v)
    (distance v).

Definition mouseMoveEvent (x y : Z) (buttons : mouse_buttons) (v : view C) : view C :=
  match _last_mouse_pos v with
  | None => v
  | Some (last_x, last_y) =>
      let dx := x - last_x in
      let dy := y - last_y in
      if (Z.abs dx <? 1) && (Z.abs dy <? 1) then v
      else
        match buttons with
        | LeftButton =>
            mkView (_rotation_locked v) (Some (x, y))
              (pan (azimuth v) (distance v) dx dy (center v))
              (azimuth v) (elevation v) (distance v)
        | RightButton =>
            if negb (_rotation_locked v) then
              let azimuth_delta := (float_of_int dx * 0.5)%float in
              let elevation_delta := (float_of_int dy * 0.5)%float in
              mkView (_rotation_locked v) (Some (x, y)) (center v)
                (azimuth v + azimuth_delta)%float
                (clamp_elevation (elevation v + elevation_delta)%float)
                (distance v)
            else
              mkView (_rotation_locked v) (Some (x, y)) (center v) (azimuth v)
                (elevation v) (distance v)
        | OtherButtons =>
            mkView (_rotation_locked v) (Some (x, y)) (center v) (azimuth v)
              (elevation v) (distance v)
        end
  end.

(** [lock_rotation], on the view and the log of the window. *)
Definition lock_rotation (v : view C) (w : window) : view C * window :=
  if _rotation_locked v then
    (mkView false (_last_mouse_pos v) (center v) (azimuth v) (elevation v) (distance v),
     log w (LogText "旋转锁定已禁用"))
  else
    (mkView true (_last_mouse_pos v) (center v) (azimuth v) (elevation v) (distance v),
     log w (LogText "旋转锁定已启用")).

(** The moves of a drag, one after the other. *)
Fixpoint mouse_moves (events : list (Z * Z * mouse_buttons)) (v : view C) : view C :=
  match events with
  | [] => v
  | (x, y, buttons) :: rest => mouse_moves rest (mouseMoveEvent x y buttons v)
  end.

End Mouse.

(** The elevation is between -90 and 90 degrees. *)
Definition elevation_in_bounds (e : float) : bool :=
  (-90 <=? e)%float && (e <=? 90)%float.

(** * Properties *)

(** ** The order of the floats

    [SFcompare] orders the floats other than NaN by sign, exponent and
    mantissa; the comparisons of [PrimFloat] are specified by it. *)

Module FloatOrder.

Ltac sf_cases :=
  repeat match goal with
         | s : bool |- _ => destruct s
         | |- context [Z.compare ?a ?b] => destruct (Z.compare_spec a b); subst
         | H : context [Z.compare ?a ?b] |- _ => destruct (Z.compare_spec a b); subst
         | |- context [Pos.compare ?a ?b] => destruct (Pos.compare_spec a b); subst
         | H : context [Pos.compare ?a ?b] |- _ => destruct (Pos.compare_spec a b); subst
         end; simpl in *; try congruence; try lia.

Ltac sf_start :=
  unfold SFltb, SFleb, SFeqb, SFcompare;
  change (Pos.compare_cont Eq) with Pos.compare.

Ltac sf_solve3 a b c :=
  sf_start; destruct a, b, c; try discriminate; try reflexivity; sf_cases.

Ltac sf_solve2 a b :=
  sf_start; destruct a, b; try discriminate; try reflexivity; sf_cases.

Lemma SFltb_trans a b c :
  SFltb a b = true -> SFltb b c = true -> SFltb a c = true.
Proof. sf_solve3 a b c. Qed.


Lemma SFleb_trans a b c :
  SFleb a b = true -> SFleb b c = true -> SFleb a c = true.
Proof. sf_solve3 a b c. Qed.


Lemma SFltb_total a b :
  sf_ordered a = true -> sf_ordered b = true -> SFltb a b = false -> SFleb b a = true.
Proof. sf_solve2 a b. Qed.

Lemma SFltb_leb a b : SFltb a b = true -> SFleb a b = true.
Proof. sf_solve2 a b. Qed.

Lemma SFltb_not_leb a b : SFltb a b = true -> SFleb b a = false.
Proof. sf_solve2 a b. Qed.


Lemma SFltb_ordered a b :
  SFltb a b = true -> sf_ordered a = true /\ sf_ordered b = true.
Proof. sf_start. destruct a, b; try discriminate; split; reflexivity. Qed.

Lemma SFleb_ordered a b :
  SFleb a b = true -> sf_ordered a = true /\ sf_ordered b = true.
Proof. sf_start. destruct a, b; try discriminate; split; reflexivity. Qed.

Lemma SFleb_refl a : sf_ordered a = true -> SFleb a a = true.
Proof.
  sf_start. destruct a; try discriminate; try reflexivity; intros _.
  - destruct s; reflexivity.
  - destruct s; rewrite Z.compare_refl, Pos.compare_refl; reflexivity.
Qed.

Lemma SFltb_irrefl a : SFltb a a = false.
Proof.
  sf_start. destruct a; try reflexivity.
  - destruct s; reflexivity.
  - destruct s; rewrite Z.compare_refl, Pos.compare_refl; reflexivity.
Qed.



(** The same on [PrimFloat]. *)

Lemma is_nan_ordered f : is_nan f = false <-> sf_ordered (Prim2SF f) = true.
Proof.
  split; intros H.
  - unfold is_nan in H. rewrite eqb_spec in H.
    destruct (Prim2SF f); try reflexivity. discriminate.
  - unfold Prim2SF in H. destruct (is_nan f); [discriminate | reflexivity].
Qed.

Lemma is_nan_Prim2SF f : is_nan f = true <-> Prim2SF f = S754_nan.
Proof.
  split; intros H.
  - unfold Prim2SF. rewrite H. reflexivity.
  - destruct (is_nan f) eqn:E; [reflexivity|].
    apply is_nan_ordered in E. rewrite H in E. discriminate.
Qed.

Lemma ltb_trans a b c :
  (a <? b)%float = true -> (b <? c)%float = true -> (a <? c)%float = true.
Proof. rewrite !ltb_spec. apply SFltb_trans. Qed.


Lemma leb_trans a b c :
  (a <=? b)%float = true -> (b <=? c)%float = true -> (a <=? c)%float = true.
Proof. rewrite !leb_spec. apply SFleb_trans. Qed.


Lemma ltb_total a b :
  is_nan a = false -> is_nan b = false ->
  (a <? b)%float = false -> (b <=? a)%float = true.
Proof.
  rewrite !is_nan_ordered, leb_spec, ltb_spec. apply SFltb_total.
Qed.

Lemma ltb_leb a b : (a <? b)%float = true -> (a <=? b)%float = true.
Proof. rewrite ltb_spec, leb_spec. apply SFltb_leb. Qed.

Lemma ltb_not_leb a b : (a <? b)%float = true -> (b <=? a)%float = false.
Proof. rewrite ltb_spec, leb_spec. apply SFltb_not_leb. Qed.


Lemma ltb_ordered a b :
  (a <? b)%float = true -> is_nan a = false /\ is_nan b = false.
Proof. rewrite ltb_spec, !is_nan_ordered. apply SFltb_ordered. Qed.

Lemma leb_ordered a b :
  (a <=? b)%float = true -> is_nan a = false /\ is_nan b = false.
Proof. rewrite leb_spec, !is_nan_ordered. apply SFleb_ordered. Qed.

Lemma leb_refl a : is_nan a = false -> (a <=? a)%float = true.
Proof. rewrite is_nan_ordered, leb_spec. apply SFleb_refl. Qed.

Lemma ltb_irrefl a : (a <? a)%float = false.
Proof. rewrite ltb_spec. apply SFltb_irrefl. Qed.



(** NaN goes through the arithmetic of the acceptance test. *)

Lemma sub_nan_l a b : is_nan a = true -> is_nan (a - b)%float = true.
Proof.
  rewrite !is_nan_Prim2SF, sub_spec. intros ->. reflexivity.
Qed.

Lemma opp_nan a : is_nan a = true -> is_nan (- a)%float = true.
Proof.
  rewrite !is_nan_Prim2SF, opp_spec. intros ->. reflexivity.
Qed.

Lemma div_nan_l a b : is_nan a = true -> is_nan (a / b)%float = true.
Proof.
  rewrite !is_nan_Prim2SF, div_spec. intros ->. reflexivity.
Qed.

End FloatOrder.

(** ** Signs through the arithmetic of a distance

    Rounding a mantissa that is not negative never gives NaN and keeps the
    sign, so differences of finite numbers are not NaN, squares and their
    sums and roots are zero, positive or plus infinity. *)

Module FloatSign.

Section Rounding.
Variables prec emax : Z.

Lemma shr_1_nonneg mrs : 0 <= shr_m mrs -> 0 <= shr_m (shr_1 mrs).
Proof.
  destruct mrs as [m r s]. simpl. destruct m as [|p|p]; [| |lia].
  - intros _. simpl. lia.
  - intros _. destruct p; simpl; lia.
Qed.

Lemma iter_pos_nonneg (p : positive) :
  forall mrs, 0 <= shr_m mrs -> 0 <= shr_m (iter_pos shr_1 p mrs).
Proof.
  induction p as [p IH|p IH|]; intros mrs H; simpl.
  - apply IH, IH, shr_1_nonneg, H.
  - apply IH, IH, H.
  - apply shr_1_nonneg, H.
Qed.

Lemma shr_fexp_nonneg m e l :
  0 <= m -> 0 <= shr_m (fst (shr_fexp prec emax m e l)).
Proof.
  intros H. unfold shr_fexp, shr.
  assert (H0 : 0 <= shr_m (shr_record_of_loc m l))
    by (destruct l as [|[ | | ]]; exact H).
  destruct (fexp prec emax (Zdigits2 m + e) - e); simpl; auto.
  apply iter_pos_nonneg. exact H0.
Qed.

Lemma round_nearest_even_nonneg m l : 0 <= m -> 0 <= round_nearest_even m l.
Proof.
  intros H. destruct l as [|[ | | ]]; simpl; try lia.
  destruct (Z.even m); lia.
Qed.

Lemma binary_round_aux_signed sx mx ex lx :
  0 <= mx -> sf_signed sx (binary_round_aux prec emax sx mx ex lx).
Proof.
  intros H. unfold binary_round_aux.
  pose proof (shr_fexp_nonneg mx ex lx H) as H1.
  destruct (shr_fexp prec emax mx ex lx) as [mrs' e']. simpl in H1.
  pose proof (shr_fexp_nonneg _ e' loc_Exact
                (round_nearest_even_nonneg _ (loc_of_shr_record mrs') H1)) as H2.
  destruct (shr_fexp prec emax (round_nearest_even (shr_m mrs') (loc_of_shr_record mrs'))
              e' loc_Exact) as [mrs'' e'']. simpl in H2.
  destruct (shr_m mrs'') as [|p|p]; [reflexivity| |lia].
  destruct (e'' <=? emax - prec); reflexivity.
Qed.

Lemma binary_round_signed sx mx ex : sf_signed sx (binary_round prec emax sx mx ex).
Proof.
  unfold binary_round. destruct (shl_align mx ex _) as [mz ez].
  apply binary_round_aux_signed. lia.
Qed.

Lemma binary_normalize_ordered m e : sf_ordered (binary_normalize prec emax m e false) = true.
Proof.
  destruct m as [|p|p]; simpl; [reflexivity| |].
  - pose proof (binary_round_signed false p e) as H.
    destruct (binary_round prec emax false p e); simpl in *; tauto.
  - pose proof (binary_round_signed true p e) as H.
    destruct (binary_round prec emax true p e); simpl in *; tauto.
Qed.

Lemma sf_signed_plus a : sf_signed false a -> sf_plus a = true.
Proof. destruct a as [s|s| |s m e]; simpl; try tauto; intros ->; reflexivity. Qed.

Lemma SFsub_finite a b :
  sf_finite a = true -> sf_finite b = true -> sf_ordered (SFsub prec emax a b) = true.
Proof.
  destruct a as [sa|sa| |sa ma ea], b as [sb|sb| |sb mb eb]; try discriminate; intros _ _;
    simpl; try reflexivity.
  - destruct sa, sb; reflexivity.
  - apply binary_normalize_ordered.
Qed.

Lemma SFmul_square a : sf_ordered a = true -> sf_plus (SFmul prec emax a a) = true.
Proof.
  destruct a as [s|s| |s m e]; try discriminate; intros _; simpl.
  - destruct s; reflexivity.
  - destruct s; reflexivity.
  - apply sf_signed_plus. replace (xorb s s) with false by (destruct s; reflexivity).
    apply binary_round_aux_signed. lia.
Qed.

Lemma SFadd_plus a b :
  sf_plus a = true -> sf_plus b = true -> sf_plus (SFadd prec emax a b) = true.
Proof.
  destruct a as [[|]|[|]| |[|] ma ea], b as [[|]|[|]| |[|] mb eb]; try discriminate;
    intros _ _; simpl; try reflexivity.
  apply sf_signed_plus, binary_round_signed.
Qed.

Lemma SFsqrt_plus a : sf_plus a = true -> sf_plus (SFsqrt prec emax a) = true.
Proof.
  destruct a as [[|]|[|]| |[|] m e]; try discriminate; intros _; simpl; try reflexivity.
  unfold SFsqrt_core_binary.
  set (m' := match e - 2 * _ with Z.pos _ => _ | 0 => _ | Z.neg _ => _ end).
  destruct (Z.sqrtrem m') as [q r] eqn:E.
  apply sf_signed_plus, binary_round_aux_signed.
  pose proof (Z.sqrtrem_sqrt m') as Hq. rewrite E in Hq. simpl in Hq. subst q.
  apply Z.sqrt_nonneg.
Qed.

Lemma sf_plus_ordered a : sf_plus a = true -> sf_ordered a = true.
Proof. destruct a as [[|]|[|]| |[|] m e]; try discriminate; reflexivity. Qed.

End Rounding.

Lemma is_finite_sf (f : float) : is_finite f = true -> sf_finite (Prim2SF f) = true.
Proof.
  unfold is_finite. intros H. apply negb_true_iff, orb_false_iff in H.
  destruct H as [Hnan Hinf]. apply FloatOrder.is_nan_ordered in Hnan.
  unfold is_infinity in Hinf. rewrite eqb_spec, abs_spec in Hinf.
  change (Prim2SF infinity) with (S754_infinity false) in Hinf.
  destruct (Prim2SF f) as [s|s| |s m e]; try reflexivity; discriminate.
Qed.

Lemma square_plus (a b : float) :
  is_finite a = true -> is_finite b = true ->
  sf_plus (Prim2SF ((a - b) * (a - b))%float) = true.
Proof.
  intros Ha Hb. rewrite mul_spec, sub_spec.
  apply SFmul_square, SFsub_finite; apply is_finite_sf; assumption.
Qed.

Lemma add_plus (a b : float) :
  sf_plus (Prim2SF a) = true -> sf_plus (Prim2SF b) = true ->
  sf_plus (Prim2SF (a + b)%float) = true.
Proof. intros Ha Hb. rewrite add_spec. apply SFadd_plus; assumption. Qed.

Lemma sqrt_plus (a : float) :
  sf_plus (Prim2SF a) = true -> sf_plus (Prim2SF (PrimFloat.sqrt a)) = true.
Proof. intros Ha. rewrite sqrt_spec. apply SFsqrt_plus; assumption. Qed.

Lemma plus_not_nan (a : float) : sf_plus (Prim2SF a) = true -> is_nan a = false.
Proof. intros H. apply FloatOrder.is_nan_ordered, sf_plus_ordered, H. Qed.

End FloatSign.

(** ** Indexing *)

Lemma bind_ok {A B : Type} (r : result A) (k : A -> result B) (b : B) :
  bind r k = Ok b -> exists a, r = Ok a /\ k a = Ok b.
Proof.
  destruct r as [a|e]; simpl; intros H; [exists a; auto | discriminate].
Qed.

Lemma py_index_front {A : Type} (l : list A) (k : Z) (d : A) :
  in_range (length l) k -> py_index l k = Ok (nth (Z.to_nat k) l d).
Proof.
  unfold in_range, py_index. intros [H0 H1].
  assert (E0 : (0 <=? k) = true) by (apply Z.leb_le; lia).
  assert (E1 : (k <? Z.of_nat (length l)) = true) by (apply Z.ltb_lt; lia).
  rewrite E0, E1. simpl.
  destruct (nth_error l (Z.to_nat k)) as [a|] eqn:E.
  - f_equal. symmetry. apply nth_error_nth. exact E.
  - apply nth_error_None in E. lia.
Qed.

Lemma py_index_valid {A : Type} (l : list A) (k : Z) :
  np_valid (length l) k -> exists a, py_index l k = Ok a.
Proof.
  unfold np_valid, py_index. intros [H0 H1].
  destruct (0 <=? k) eqn:E0; simpl.
  - assert (E1 : (k <? Z.of_nat (length l)) = true) by (apply Z.ltb_lt; lia).
    rewrite E1. apply Z.leb_le in E0.
    destruct (nth_error l (Z.to_nat k)) as [a|] eqn:E; [eauto|].
    apply nth_error_None in E. lia.
  - apply Z.leb_gt in E0.
    assert (E1 : (- Z.of_nat (length l) <=? k) = true) by (apply Z.leb_le; lia).
    assert (E2 : (k <? 0) = true) by (apply Z.ltb_lt; lia).
    rewrite E1, E2. simpl.
    destruct (nth_error l (Z.to_nat (Z.of_nat (length l) + k))) as [a|] eqn:E; [eauto|].
    apply nth_error_None in E. lia.
Qed.

Lemma py_index_invalid {A : Type} (l : list A) (k : Z) :
  ~ np_valid (length l) k -> py_index l k = Raise IndexError.
Proof.
  unfold np_valid, py_index. intros H.
  destruct ((0 <=? k) && (k <? Z.of_nat (length l))) eqn:E.
  - apply andb_true_iff in E. destruct E as [E0 E1].
    apply Z.leb_le in E0. apply Z.ltb_lt in E1. lia.
  - destruct ((- Z.of_nat (length l) <=? k) && (k <? 0)) eqn:E'; [|reflexivity].
    apply andb_true_iff in E'. destruct E' as [E0 E1].
    apply Z.leb_le in E0. apply Z.ltb_lt in E1. lia.
Qed.

Lemma py_index_raises {A : Type} (l : list A) (k : Z) (e : exn) :
  py_index l k = Raise e -> e = IndexError.
Proof.
  unfold py_index.
  repeat match goal with
         | |- context [if ?b then _ else _] => destruct b
         | |- context [match ?o with Some _ => _ | None => _ end] => destruct o
         end; intros H; congruence.
Qed.

Lemma np_valid_dec (n : nat) (k : Z) : {np_valid n k} + {~ np_valid n k}.
Proof.
  unfold np_valid.
  destruct (Z_le_dec (- Z.of_nat n) k); destruct (Z_lt_dec k (Z.of_nat n));
    [left | right | right | right]; lia.
Qed.

Lemma in_range_np_valid (n : nat) (k : Z) : in_range n k -> np_valid n k.
Proof. unfold in_range, np_valid. lia. Qed.

Lemma py_index_point (points : list vec3) (k : Z) :
  in_range (length points) k -> py_index points k = Ok (point_at points k).
Proof. intros H. unfold point_at. apply py_index_front. exact H. Qed.

(** ** The evaluator [_calculate_distance_3d] *)

Lemma sum_legs_valid (points : list vec3) (rest : list Z) :
  forall prev acc,
    Forall (np_valid (length points)) (prev :: rest) ->
    exists d, sum_legs points prev rest acc = Ok d.
Proof.
  induction rest as [|k rest IH]; intros prev acc H; simpl.
  - eauto.
  - inversion H as [|? ? Hp Hr]; subst. inversion Hr as [|? ? Hk Hr']; subst.
    destruct (py_index_valid points k Hk) as [a ->].
    destruct (py_index_valid points prev Hp) as [b ->]. simpl.
    apply IH. exact Hr.
Qed.

Lemma sum_legs_invalid (points : list vec3) (rest : list Z) :
  forall prev acc,
    rest <> [] ->
    ~ Forall (np_valid (length points)) (prev :: rest) ->
    sum_legs points prev rest acc = Raise IndexError.
Proof.
  induction rest as [|k rest IH]; intros prev acc Hne H; [congruence|]. simpl.
  destruct (np_valid_dec (length points) k) as [Hk|Hk].
  - destruct (py_index_valid points k Hk) as [a ->]. simpl.
    destruct (np_valid_dec (length points) prev) as [Hp|Hp].
    + destruct (py_index_valid points prev Hp) as [b ->]. simpl.
      destruct rest as [|k' rest'].
      * exfalso. apply H. constructor; [assumption|]. constructor; [assumption|]. constructor.
      * apply IH; [discriminate|]. intros HF. apply H. constructor; assumption.
    + rewrite (py_index_invalid points prev Hp). reflexivity.
  - rewrite (py_index_invalid points k Hk). reflexivity.
Qed.

(** C6 (as the code has it): the evaluator has no check of its own.  It
    returns 0 for a tour of fewer than two entries, whatever they are; for
    a longer tour it returns a length exactly when every entry is an index
    numpy accepts, [-n..n-1], and the only failure is numpy's [IndexError]
    on an entry outside that range. *)
Theorem evaluator_index_check (points : list vec3) (path : list Z) :
  ((length path <= 1)%nat -> _calculate_distance_3d points path = Ok 0%float) /\
  ((2 <= length path)%nat ->
     (Forall (np_valid (length points)) path ->
        exists d, _calculate_distance_3d points path = Ok d) /\
     (~ Forall (np_valid (length points)) path ->
        _calculate_distance_3d points path = Raise IndexError)).
Proof.
  split.
  - destruct path as [|p0 [|p1 rest]]; simpl; intros H; try reflexivity. lia.
  - intros Hlen. destruct path as [|p0 rest]; [simpl in Hlen; lia|].
    unfold _calculate_distance_3d. split.
    + intros HF. apply sum_legs_valid. exact HF.
    + intros HF. apply sum_legs_invalid; [|exact HF].
      destruct rest; [simpl in Hlen; lia | discriminate].
Qed.

(** C6 (as stated) fails: the evaluator returns a number for the empty tour,
    for a one-entry tour whose entry is no index at all, and for a tour with
    the entry [-1]. *)
Lemma evaluator_accepts_malformed :
  _calculate_distance_3d (points_of square) [] = Ok 0%float /\
  _calculate_distance_3d (points_of square) [7] = Ok 0%float /\
  _calculate_distance_3d (points_of square) [0; -1] = Ok 10%float /\
  ~ in_range (length (points_of square)) 7 /\
  ~ in_range (length (points_of square)) (-1).
Proof.
  repeat split; try (vm_compute; reflexivity); unfold in_range; simpl; lia.
Qed.

(** The evaluator on the square, on a tour written with negative indices. *)
Lemma evaluator_index_check_witness :
  _calculate_distance_3d (points_of square) [-4; 3; -2] = Ok 20%float /\
  exists d, _calculate_distance_3d (points_of square) [-4; 3; -2] = Ok d.
Proof.
  split; [vm_compute; reflexivity|].
  destruct (evaluator_index_check (points_of square) [-4; 3; -2]) as [_ H].
  destruct H as [H _]; [simpl; lia|]. apply H.
  repeat constructor; unfold np_valid; simpl; lia.
Defined.

(** ** Lists: ranges, [pop], [mapM] *)

Lemma py_range_In (a b : nat) (k : Z) :
  In k (py_range a b) <-> Z.of_nat a <= k < Z.of_nat b.
Proof.
  unfold py_range. rewrite in_map_iff. split.
  - intros [x [<- Hx]]. apply in_seq in Hx. lia.
  - intros H. exists (Z.to_nat k). split; [lia|]. apply in_seq. lia.
Qed.

Lemma py_range_length (a b : nat) : length (py_range a b) = (b - a)%nat.
Proof. unfold py_range. rewrite length_map, length_seq. reflexivity. Qed.

Lemma py_range_cons (n : nat) : (1 <= n)%nat -> py_range 0 n = 0 :: py_range 1 n.
Proof.
  intros H. unfold py_range. destruct n as [|n]; [lia|].
  simpl. rewrite Nat.sub_0_r. reflexivity.
Qed.

Lemma map_of_nat_sorted (len : nat) :
  forall a, StronglySorted Z.lt (map Z.of_nat (seq a len)).
Proof.
  induction len as [|len IH]; intros a; simpl; constructor.
  - apply IH.
  - apply Forall_forall. intros k Hk. apply in_map_iff in Hk.
    destruct Hk as [x [<- Hx]]. apply in_seq in Hx. lia.
Qed.

Lemma py_range_sorted (a b : nat) : StronglySorted Z.lt (py_range a b).
Proof. apply map_of_nat_sorted. Qed.

Lemma py_range_in_range (a n : nat) : Forall (in_range n) (py_range a n).
Proof.
  apply Forall_forall. intros k Hk. apply py_range_In in Hk. unfold in_range. lia.
Qed.

Lemma pop_at_app {A : Type} (l1 l2 : list A) (a : A) :
  pop_at (length l1) (l1 ++ a :: l2) = l1 ++ l2.
Proof.
  induction l1 as [|x l1 IH]; [reflexivity|].
  unfold pop_at in *. simpl. f_equal. exact IH.
Qed.




Lemma mapM_map {A B : Type} (f : A -> result B) (g : A -> B) (l : list A) :
  (forall a, In a l -> f a = Ok (g a)) -> mapM f l = Ok (map g l).
Proof.
  induction l as [|a l IH]; intros H; simpl; [reflexivity|].
  rewrite (H a (or_introl eq_refl)). simpl.
  rewrite IH by (intros a' Ha'; apply H; right; exact Ha'). reflexivity.
Qed.

(** ** [np.argmin] *)

Lemma argmin_scan_bound (xs : list float) :
  forall mp mi i, (mi < i)%nat -> (argmin_scan mp mi i xs < i + length xs)%nat.
Proof.
  induction xs as [|x xs IH]; intros mp mi i H; simpl; [lia|].
  destruct (negb (mp <=? x)%float).
  - destruct (is_nan x); [lia|]. specialize (IH x i (S i)). lia.
  - specialize (IH mp mi (S i)). lia.
Qed.

Lemma argmin_ok (xs : list float) :
  xs <> [] -> exists r, argmin xs = Ok r /\ (r < length xs)%nat.
Proof.
  destruct xs as [|x xs]; [congruence|]. intros _. simpl.
  destruct (is_nan x).
  - exists 0%nat. split; [reflexivity | lia].
  - eexists. split; [reflexivity|].
    pose proof (argmin_scan_bound xs x 0%nat 1%nat). lia.
Qed.



(** ** The nearest-neighbour loop *)

Section NearestNeighbor.

Variable points : list vec3.
Let n := length points.

Lemma nn_select_ok (unvisited : list Z) (current : Z) :
  in_range n current ->
  Forall (in_range n) unvisited ->
  unvisited <> [] ->
  exists r u,
    nn_select points unvisited current = Ok (r, u) /\
    argmin (map (dist points current) unvisited) = Ok r /\
    nth_error unvisited r = Some u.
Proof.
  intros Hc HF Hne. unfold nn_select.
  rewrite (py_index_point points current Hc). simpl.
  rewrite (mapM_map _ (dist points current)).
  2:{ intros i Hi. rewrite Forall_forall in HF.
      rewrite (py_index_point points i (HF i Hi)). reflexivity. }
  simpl.
  destruct (argmin_ok (map (dist points current) unvisited)) as [r [Hr Hlt]].
  { destruct unvisited; [congruence | discriminate]. }
  rewrite Hr. simpl. rewrite length_map in Hlt.
  rewrite (py_index_front unvisited (Z.of_nat r) 0)
    by (unfold in_range; lia).
  simpl. rewrite Nat2Z.id. exists r, (nth r unvisited 0).
  split; [reflexivity|]. split; [reflexivity|].
  apply nth_error_nth'. exact Hlt.
Qed.

Lemma nn_loop_permutation (fuel : nat) :
  forall unvisited path current,
    (length unvisited <= fuel)%nat ->
    in_range n current ->
    Forall (in_range n) unvisited ->
    exists p,
      nn_loop fuel points unvisited path current = Some (Ok p) /\
      Permutation p (path ++ unvisited).
Proof.
  induction fuel as [|fuel IH]; intros unvisited path current Hlen Hc HF.
  - destruct unvisited; [|simpl in Hlen; lia].
    exists path. simpl. rewrite app_nil_r. auto.
  - destruct unvisited as [|x xs] eqn:EU.
    { exists path. simpl. rewrite app_nil_r. auto. }
    rewrite <- EU in *.
    destruct (nn_select_ok unvisited current Hc HF) as [r [u [Hsel [_ Hnth]]]];
      [congruence|].
    destruct (nth_error_split _ _ Hnth) as [l1 [l2 [Hl Hl1]]].
    assert (Hstep : nn_loop (S fuel) points unvisited path current =
                    nn_loop fuel points (l1 ++ l2) (path ++ [u]) u).
    { rewrite EU at 1. simpl. rewrite <- EU. rewrite Hsel.
      rewrite Hl at 1. rewrite <- Hl1. rewrite pop_at_app. reflexivity. }
    rewrite Hstep.
    assert (HF' : Forall (in_range n) (l1 ++ u :: l2)) by (rewrite <- Hl; exact HF).
    apply Forall_app in HF'. destruct HF' as [HF1 HF2].
    inversion HF2 as [|? ? Hu HF2' EQ]; clear EQ.
    destruct (IH (l1 ++ l2) (path ++ [u]) u) as [p [Hp Hperm]].
    + rewrite Hl in Hlen. rewrite length_app in *. simpl in Hlen. lia.
    + exact Hu.
    + apply Forall_app. auto.
    + exists p. split; [exact Hp|].
      rewrite Hperm, Hl, <- app_assoc. apply Permutation_app_head.
      simpl. apply Permutation_middle.
Qed.


End NearestNeighbor.


Lemma points_of_length (cs : list coordinate) : length (points_of cs) = length cs.
Proof. apply length_map. Qed.

Lemma draw_ok (w : window) (path : list Z) :
  Forall (in_range (length (coordinates w))) path ->
  _draw_optimized_path w path = Ok tt.
Proof.
  intros HF. unfold _draw_optimized_path.
  rewrite (mapM_map _ (fun k => nth (Z.to_nat k) (coordinates w)
                                  (mkCoordinate 0 0 0 EmptyString))).
  - reflexivity.
  - intros k Hk. rewrite Forall_forall in HF. apply py_index_front. exact (HF k Hk).
Qed.

Lemma check_coordinates_enough (w : window) :
  (2 <= length (coordinates w))%nat -> _check_coordinates w = (true, w).
Proof.
  intros H. unfold _check_coordinates.
  destruct (Nat.ltb_spec (length (coordinates w)) 2); [lia | reflexivity].
Qed.

Lemma check_coordinates_few (w : window) :
  (length (coordinates w) < 2)%nat ->
  _check_coordinates w =
  (false, log w (LogText "错误：需要至少2个坐标点才能进行优化")).
Proof.
  intros H. unfold _check_coordinates.
  destruct (Nat.ltb_spec (length (coordinates w)) 2); [reflexivity | lia].
Qed.

Lemma nearest_neighbor_stores (w : window) (path : list Z) :
  (2 <= length (coordinates w))%nat ->
  nearest_neighbor_path (coordinates w) = Some (Ok path) ->
  Forall (in_range (length (coordinates w))) path ->
  exists w',
    optimize_with_nearest_neighbor w = Some w' /\
    optimized_path w' = path /\
    coordinates w' = coordinates w.
Proof.
  intros Hn Hp HF. unfold optimize_with_nearest_neighbor.
  rewrite (check_coordinates_enough w Hn). simpl.
  rewrite Hp. unfold try_except, nn_finish.
  rewrite draw_ok by exact HF.
  destruct (sum_legs_valid (points_of (coordinates w)) (tl path) (hd 0 path) 0%float)
    as [d Hd].
  { rewrite points_of_length. destruct path as [|p0 rest].
    - simpl. constructor; [unfold np_valid; lia | constructor].
    - simpl. eapply Forall_impl; [|exact HF]. intros k. apply in_range_np_valid. }
  assert (Hcalc : exists d', _calculate_distance_3d (points_of (coordinates w)) path = Ok d').
  { destruct path as [|p0 rest]; simpl; eauto. }
  destruct Hcalc as [d' Hd']. simpl in Hd'. simpl. rewrite Hd'.
  eexists. split; [reflexivity|]. split; reflexivity.
Qed.

Lemma nearest_neighbor_path_tour (cs : list coordinate) :
  (2 <= length cs)%nat ->
  exists path,
    nearest_neighbor_path cs = Some (Ok path) /\ is_tour (length cs) path.
Proof.
  intros Hn. unfold nearest_neighbor_path.
  destruct (nn_loop_permutation (points_of cs) (length (py_range 1 (length cs)))
              (py_range 1 (length cs)) [0] 0) as [p [Hp Hperm]].
  - lia.
  - rewrite points_of_length. unfold in_range. lia.
  - rewrite points_of_length. apply py_range_in_range.
  - exists p. split; [exact Hp|]. unfold is_tour.
    rewrite py_range_cons by lia. exact Hperm.
Qed.

Lemma is_tour_in_range (n : nat) (path : list Z) :
  is_tour n path -> Forall (in_range n) path.
Proof.
  intros H. apply Forall_forall. intros k Hk.
  apply (Permutation_in _ H) in Hk. apply py_range_In in Hk.
  unfold in_range. lia.
Qed.


(** ** Finite coordinates give distances that are numbers *)

Lemma norm3_plus (a b : vec3) :
  (let '(ax, ay, az) := a in
   is_finite ax = true /\ is_finite ay = true /\ is_finite az = true) ->
  (let '(bx, by_, bz) := b in
   is_finite bx = true /\ is_finite by_ = true /\ is_finite bz = true) ->
  sf_plus (Prim2SF (norm3 a b)) = true.
Proof.
  destruct a as [[ax ay] az], b as [[bx by_] bz].
  intros [Hax [Hay Haz]] [Hbx [Hby Hbz]]. unfold norm3.
  apply FloatSign.sqrt_plus. repeat apply FloatSign.add_plus;
    apply FloatSign.square_plus; assumption.
Qed.

Lemma point_at_finite (cs : list coordinate) (k : Z) :
  coordinates_finite cs ->
  let '(x, y, z) := point_at (points_of cs) k in
  is_finite x = true /\ is_finite y = true /\ is_finite z = true.
Proof.
  intros HF. unfold point_at, points_of. generalize (Z.to_nat k) as i.
  induction HF as [|c cs Hc HF IH]; intros [|i]; simpl;
    try (repeat split; reflexivity).
  - exact Hc.
  - apply IH.
Qed.

Lemma dist_plus (cs : list coordinate) (u v : Z) :
  coordinates_finite cs -> sf_plus (Prim2SF (dist (points_of cs) u v)) = true.
Proof.
  intros HF. unfold dist.
  apply norm3_plus; apply point_at_finite; exact HF.
Qed.


Lemma finite_coordinates_closed_length (cs : list coordinate) (path : list Z) :
  coordinates_finite cs -> is_nan (closed_length (points_of cs) path) = false.
Proof.
  intros HF. apply FloatSign.plus_not_nan. unfold closed_length.
  apply FloatSign.add_plus; [|apply dist_plus; exact HF].
  unfold open_length.
  assert (H0 : sf_plus (Prim2SF 0%float) = true) by reflexivity.
  revert H0. generalize 0%float.
  induction (seq 1 (length path - 1)) as [|i l IH]; intros acc Hacc; [exact Hacc|].
  simpl. apply IH. apply FloatSign.add_plus; [exact Hacc|].
  unfold leg_length. apply dist_plus. exact HF.
Qed.

Lemma square_finite : coordinates_finite square.
Proof. repeat constructor. Defined.



(** ** The closed length that [calculate_distance] computes *)

Lemma fold_left_ext_in {A B : Type} (f g : A -> B -> A) (l : list B) :
  (forall a b, In b l -> f a b = g a b) ->
  forall a, fold_left f l a = fold_left g l a.
Proof.
  induction l as [|b l IH]; intros H a; simpl; [reflexivity|].
  rewrite (H a b (or_introl eq_refl)). apply IH.
  intros a' b' Hb'. apply H. right. exact Hb'.
Qed.

Lemma fold_left_map {A B C : Type} (f : A -> C -> A) (h : B -> C) (l : list B) :
  forall a, fold_left f (map h l) a = fold_left (fun acc b => f acc (h b)) l a.
Proof.
  induction l as [|b l IH]; intros a; simpl; [reflexivity | apply IH].
Qed.

Lemma sum_legs_fold (points : list vec3) (rest : list Z) :
  forall prev acc,
    Forall (in_range (length points)) (prev :: rest) ->
    sum_legs points prev rest acc =
    Ok (fold_left (fun acc i => (acc + leg_length points (prev :: rest) i)%float)
          (seq 1 (length rest)) acc).
Proof.
  induction rest as [|k rest IH]; intros prev acc HF; [reflexivity|].
  inversion HF as [|? ? Hp Hr]; subst. inversion Hr as [|? ? Hk Hr']; subst.
  cbn [sum_legs]. rewrite (py_index_point points k Hk), (py_index_point points prev Hp).
  cbn [bind]. rewrite (IH k _ Hr).
  cbn [length seq fold_left]. f_equal.
  rewrite <- (seq_shift (length rest) 1), fold_left_map.
  apply fold_left_ext_in. intros a i Hi. apply in_seq in Hi.
  unfold leg_length. destruct i as [|i]; [lia|].
  cbn [nth]. replace (S (S i) - 1)%nat with (S i) by lia.
  replace (S i - 1)%nat with i by lia. reflexivity.
Qed.

Lemma calculate_distance_3d_open (points : list vec3) (path : list Z) :
  Forall (in_range (length points)) path ->
  _calculate_distance_3d points path = Ok (open_length points path).
Proof.
  intros HF. destruct path as [|p0 rest]; [reflexivity|].
  unfold _calculate_distance_3d, open_length.
  rewrite (sum_legs_fold points rest p0 _ HF).
  cbn [length]. rewrite Nat.sub_succ, Nat.sub_0_r. reflexivity.
Qed.

Lemma nth_error_last {A : Type} (l : list A) (d : A) :
  l <> [] -> nth_error l (length l - 1) = Some (last l d).
Proof.
  induction l as [|a l IH]; [congruence|]. intros _.
  destruct l as [|b l]; [reflexivity|].
  cbn [length] in *. rewrite Nat.sub_succ, Nat.sub_0_r.
  change (nth_error (b :: l) (length l) = Some (last (b :: l) d)).
  rewrite <- IH by discriminate. f_equal. simpl. lia.
Qed.

Lemma py_index_last (path : list Z) :
  path <> [] -> py_index path (-1) = Ok (last path 0).
Proof.
  intros Hne. unfold py_index.
  assert (Hlen : (1 <= length path)%nat)
    by (destruct path; [congruence | simpl; lia]).
  change (0 <=? -1) with false. cbn [andb].
  assert (E : (- Z.of_nat (length path) <=? -1) = true) by (apply Z.leb_le; lia).
  rewrite E. cbn [andb Z.ltb Z.compare].
  replace (Z.to_nat (Z.of_nat (length path) + -1)) with (length path - 1)%nat by lia.
  rewrite (nth_error_last path 0 Hne). reflexivity.
Qed.

Lemma calculate_distance_closed (points : list vec3) (path : list Z) :
  path <> [] ->
  Forall (in_range (length points)) path ->
  calculate_distance points path = Ok (closed_length points path).
Proof.
  intros Hne HF. unfold calculate_distance.
  rewrite (calculate_distance_3d_open points path HF). cbn [bind].
  rewrite (py_index_last path Hne). cbn [bind].
  assert (Hlast : in_range (length points) (last path 0)).
  { rewrite Forall_forall in HF. apply HF.
    destruct (exists_last Hne) as [l' [a ->]]. rewrite last_last.
    apply in_or_app. right. left. reflexivity. }
  rewrite (py_index_point points _ Hlast). cbn [bind].
  assert (Hfirst : in_range (length path) 0).
  { unfold in_range. destruct path; [congruence | simpl; lia]. }
  rewrite (py_index_front path 0 0 Hfirst). cbn [bind].
  change (Z.to_nat 0) with 0%nat.
  assert (Hf : in_range (length points) (nth 0 path 0)).
  { rewrite Forall_forall in HF. apply HF. destruct path; [congruence | left; reflexivity]. }
  rewrite (py_index_point points _ Hf). reflexivity.
Qed.

Lemma is_tour_nonempty (n : nat) (path : list Z) :
  (1 <= n)%nat -> is_tour n path -> path <> [].
Proof.
  intros Hn H ->. apply Permutation_length in H.
  rewrite py_range_length in H. simpl in H. lia.
Qed.

Lemma calculate_distance_tour (points : list vec3) (path : list Z) :
  (1 <= length points)%nat ->
  is_tour (length points) path ->
  calculate_distance points path = Ok (closed_length points path).
Proof.
  intros Hn Ht. apply calculate_distance_closed.
  - exact (is_tour_nonempty _ _ Hn Ht).
  - exact (is_tour_in_range _ _ Ht).
Qed.

(** ** The 2-opt move *)

Lemma reverse_slice_permutation (path : list Z) (i j : nat) :
  (i <= j)%nat -> Permutation (reverse_slice path i j) path.
Proof.
  intros Hij. unfold reverse_slice.
  set (A := firstn (j + 1 - i) (skipn i path)).
  transitivity (firstn i path ++ A ++ skipn (j + 1) path).
  - apply Permutation_app_head, Permutation_app_tail. symmetry. apply Permutation_rev.
  - replace (skipn (j + 1) path) with (skipn (j + 1 - i) (skipn i path)).
    + unfold A. rewrite !firstn_skipn. reflexivity.
    + rewrite skipn_skipn. f_equal. lia.
Qed.

(** ** Chains of states

    [Sorted R (s :: tr)] says that every state of the trace is [R]-related
    to the next one. *)

Lemma last_cons {A : Type} (a d : A) (l : list A) : last (a :: l) d = last l a.
Proof.
  revert a d. induction l as [|b l IH]; intros a d; [reflexivity|].
  change (last (b :: l) d = last (b :: l) a). rewrite !IH. reflexivity.
Qed.

Lemma last_In {A : Type} (l : list A) (d : A) : l <> [] -> In (last l d) l.
Proof.
  intros Hne. destruct (exists_last Hne) as [l' [a ->]].
  rewrite last_last. apply in_or_app. right. left. reflexivity.
Qed.

Lemma last_app_chain {A : Type} (l1 l2 : list A) (s : A) :
  last (l1 ++ l2) s = last l2 (last l1 s).
Proof.
  revert s. induction l1 as [|a l1 IH]; intros s; [reflexivity|].
  change ((a :: l1) ++ l2) with (a :: (l1 ++ l2)). rewrite !last_cons. apply IH.
Qed.

Lemma chain_app {A : Type} (R : A -> A -> Prop) (tr1 tr2 : list A) :
  forall s,
    Sorted R (s :: tr1) -> Sorted R (last tr1 s :: tr2) -> Sorted R (s :: tr1 ++ tr2).
Proof.
  induction tr1 as [|a tr1 IH]; intros s H1 H2; [exact H2|].
  apply Sorted_inv in H1. destruct H1 as [H1 Hhd]. apply HdRel_inv in Hhd.
  rewrite last_cons in H2. simpl.
  constructor; [apply IH; assumption | constructor; exact Hhd].
Qed.

Lemma chain_invariant {A : Type} (R : A -> A -> Prop) (P : A -> Prop) (tr : list A) :
  (forall a b, P a -> R a b -> P b) ->
  forall s, P s -> Sorted R (s :: tr) -> Forall P (s :: tr).
Proof.
  intros Hstep. induction tr as [|a tr IH]; intros s Hs H.
  - constructor; [exact Hs | constructor].
  - apply Sorted_inv in H. destruct H as [H Hhd]. apply HdRel_inv in Hhd.
    constructor; [exact Hs|]. apply IH; [|exact H]. exact (Hstep s a Hs Hhd).
Qed.

Lemma chain_weaken {A : Type} (R R' : A -> A -> Prop) (P : A -> Prop) (l : list A) :
  (forall a b, P a -> R a b -> R' a b) ->
  Forall P l -> Sorted R l -> Sorted R' l.
Proof.
  intros Himp HP HS. induction HS as [|a l HS IH Hhd]; [constructor|].
  inversion HP as [|? ? Pa Pl]; subst. constructor; [exact (IH Pl)|].
  destruct Hhd as [|b l Hab]; constructor. exact (Himp a b Pa Hab).
Qed.

Lemma strongly_sorted_nth {A : Type} (R : A -> A -> Prop) (l : list A) (d : A) :
  StronglySorted R l ->
  forall j k, (j < k < length l)%nat -> R (nth j l d) (nth k l d).
Proof.
  intros HS. induction HS as [|a l HS IH HF]; intros j k [Hjk Hk]; [simpl in Hk; lia|].
  destruct k as [|k]; [lia|]. simpl in Hk. destruct j as [|j].
  - simpl. rewrite Forall_forall in HF. apply HF. apply nth_In. lia.
  - simpl. apply IH. lia.
Qed.

(** ** One pass of the annealing loop body *)

Section AnnealingFacts.

Variable exp : float -> float.
Variable rs : random_source.
Variable points : list vec3.
Hypothesis points_nonempty : (1 <= length points)%nat.

Lemma sa_accept_calls (p : list Z) (d : float) (s : sa_state) :
  randint_calls (sa_accept p d s) = randint_calls s.
Proof. unfold sa_accept. destruct (d <? best_distance s)%float; reflexivity. Qed.

(** The pass either leaves tours and costs alone, or accepts the reversed
    path because it is shorter or because the random number is below the
    acceptance probability. *)
Lemma sa_iteration_cases (temp : float) (st : sa_state) :
  is_tour (length points) (current_path st) ->
  exists st',
    sa_iteration exp rs points temp st = Ok st' /\
    randint_calls st' = S (randint_calls st) /\
    ((current_path st' = current_path st /\
      current_distance st' = current_distance st /\
      best_path st' = best_path st /\
      best_distance st' = best_distance st) \/
     (exists new_path new_distance c1 c2,
        Permutation new_path (current_path st) /\
        calculate_distance points new_path = Ok new_distance /\
        ((new_distance - current_distance st <? 0)%float = true \/
         exists u,
           (u <? exp (- (new_distance - current_distance st) / temp))%float = true) /\
        c1 = S (randint_calls st) /\
        st' = sa_accept new_path new_distance
                (mkSaState (current_path st) (current_distance st) (best_path st)
                   (best_distance st) c1 c2))).
Proof.
  intros Ht. unfold sa_iteration.
  destruct (randint rs (randint_calls st)) as [a b].
  destruct (Nat.min a b =? Nat.max a b)%nat eqn:Eij.
  { eexists. split; [reflexivity|]. split; [reflexivity|]. left. simpl. auto. }
  cbn [current_path current_distance best_path best_distance randint_calls random_calls].
  set (new_path := reverse_slice (current_path st) (Nat.min a b) (Nat.max a b)).
  assert (Hperm : Permutation new_path (current_path st))
    by (apply reverse_slice_permutation; lia).
  assert (Hnew : is_tour (length points) new_path)
    by (unfold is_tour; rewrite Hperm; exact Ht).
  rewrite (calculate_distance_tour points new_path points_nonempty Hnew).
  cbn [bind].
  set (new_distance := closed_length points new_path).
  assert (Hcalc : calculate_distance points new_path = Ok new_distance)
    by (apply calculate_distance_tour; assumption).
  destruct (new_distance - current_distance st <? 0)%float eqn:Ed.
  { eexists. split; [reflexivity|]. split.
    - rewrite sa_accept_calls. reflexivity.
    - right. exists new_path, new_distance, (S (randint_calls st)), (random_calls st).
      split; [exact Hperm|]. split; [exact Hcalc|]. split; [left; exact Ed|].
      split; reflexivity. }
  destruct (random rs (random_calls st)
            <? exp (- (new_distance - current_distance st) / temp))%float eqn:Eu.
  - eexists. split; [reflexivity|]. split.
    + rewrite sa_accept_calls. reflexivity.
    + right. exists new_path, new_distance, (S (randint_calls st)), (S (random_calls st)).
      split; [exact Hperm|]. split; [exact Hcalc|].
      split; [right; eexists; exact Eu|]. split; reflexivity.
  - eexists. split; [reflexivity|]. split; [reflexivity|]. left. simpl. auto.
Qed.

Lemma sa_iterates_cases (s s' : sa_state) :
  is_tour (length points) (current_path s) ->
  sa_iterates exp rs points s s' ->
  randint_calls s' = S (randint_calls s) /\
  ((current_path s' = current_path s /\
    current_distance s' = current_distance s /\
    best_path s' = best_path s /\
    best_distance s' = best_distance s) \/
   (exists new_path new_distance c1 c2 temp,
      Permutation new_path (current_path s) /\
      calculate_distance points new_path = Ok new_distance /\
      ((new_distance - current_distance s <? 0)%float = true \/
       exists u,
         (u <? exp (- (new_distance - current_distance s) / temp))%float = true) /\
      s' = sa_accept new_path new_distance
             (mkSaState (current_path s) (current_distance s) (best_path s)
                (best_distance s) c1 c2))).
Proof.
  intros Ht [temp Hit].
  destruct (sa_iteration_cases temp s Ht) as [st' [Hst' [Hc Hcases]]].
  rewrite Hit in Hst'. injection Hst' as <-.
  split; [exact Hc|].
  destruct Hcases as [H|[p [d [c1 [c2 [H1 [H2 [H3 [_ H4]]]]]]]]]; [left; exact H|].
  right. exists p, d, c1, c2, temp. auto.
Qed.

Lemma sa_accept_fields (p : list Z) (d : float) (s : sa_state) :
  current_path (sa_accept p d s) = p /\
  current_distance (sa_accept p d s) = d /\
  ((d <? best_distance s)%float = true /\
     best_path (sa_accept p d s) = p /\ best_distance (sa_accept p d s) = d \/
   (d <? best_distance s)%float = false /\
     best_path (sa_accept p d s) = best_path s /\
     best_distance (sa_accept p d s) = best_distance s).
Proof.
  unfold sa_accept. destruct (d <? best_distance s)%float eqn:E; cbn; auto 10.
Qed.

Lemma sa_iterates_step (s s' : sa_state) :
  is_tour (length points) (current_path s) ->
  sa_iterates exp rs points s s' ->
  sa_step points s s'.
Proof.
  intros Ht Hit.
  destruct (sa_iterates_cases s s' Ht Hit)
    as [_ [[H1 [H2 [H3 H4]]]|[p [d [c1 [c2 [temp [Hp [Hd [_ ->]]]]]]]]]].
  - apply step_unchanged; assumption.
  - destruct (sa_accept_fields p d
                (mkSaState (current_path s) (current_distance s) (best_path s)
                   (best_distance s) c1 c2))
      as [F1 [F2 [[E [F3 F4]]|[E [F3 F4]]]]]; cbn in E, F3, F4.
    + apply step_accept_improve with p d; assumption.
    + apply step_accept_keep with p d; assumption.
Qed.

Lemma sa_iterates_invariant (s s' : sa_state) :
  sa_invariant points s ->
  sa_iterates exp rs points s s' ->
  sa_invariant points s'.
Proof.
  intros [Hc [Hb [Hcd [Hbd Hlt]]]] Hit.
  destruct (sa_iterates_cases s s' Hc Hit)
    as [_ [[H1 [H2 [H3 H4]]]|[p [d [c1 [c2 [temp [Hp [Hd [_ ->]]]]]]]]]].
  - unfold sa_invariant. rewrite H1, H2, H3, H4. auto.
  - assert (Htp : is_tour (length points) p)
      by (unfold is_tour; rewrite Hp; exact Hc).
    destruct (sa_accept_fields p d
                (mkSaState (current_path s) (current_distance s) (best_path s)
                   (best_distance s) c1 c2))
      as [F1 [F2 [[E [F3 F4]]|[E [F3 F4]]]]]; cbn in E, F3, F4;
      unfold sa_invariant; rewrite F1, F2, F3, F4.
    + repeat split; auto. apply FloatOrder.ltb_irrefl.
    + repeat split; auto.
Qed.

Lemma sa_iterates_costs_ordered (s s' : sa_state) :
  exp_keeps_nan exp ->
  is_tour (length points) (current_path s) ->
  sa_costs_ordered s ->
  sa_iterates exp rs points s s' ->
  sa_costs_ordered s'.
Proof.
  intros Hexp Hc [Hnan Hle] Hit.
  destruct (sa_iterates_cases s s' Hc Hit)
    as [_ [[H1 [H2 [H3 H4]]]|[p [d [c1 [c2 [temp [Hp [Hd [Hacc ->]]]]]]]]]].
  - unfold sa_costs_ordered. rewrite H2, H4. auto.
  - assert (Hd_num : is_nan d = false).
    { destruct (is_nan d) eqn:En; [exfalso | reflexivity].
      pose proof (FloatOrder.sub_nan_l d (current_distance s) En) as Hdelta.
      destruct Hacc as [Hneg|[u Hu]].
      - apply FloatOrder.ltb_ordered in Hneg. destruct Hneg as [Hneg _]. congruence.
      - apply FloatOrder.ltb_ordered in Hu. destruct Hu as [_ Hu].
        apply FloatOrder.opp_nan in Hdelta.
        apply (FloatOrder.div_nan_l _ temp) in Hdelta.
        apply Hexp in Hdelta. congruence. }
    destruct (sa_accept_fields p d
                (mkSaState (current_path s) (current_distance s) (best_path s)
                   (best_distance s) c1 c2))
      as [F1 [F2 [[E [F3 F4]]|[E [F3 F4]]]]]; cbn in E, F3, F4;
      unfold sa_costs_ordered; rewrite F2, F4.
    + split; [exact Hd_num|]. apply FloatOrder.leb_refl. exact Hd_num.
    + split; [exact Hd_num|].
      apply FloatOrder.ltb_total; [exact Hd_num | | exact E].
      apply FloatOrder.leb_ordered in Hle. tauto.
Qed.

Lemma sa_step_best_not_above (s s' : sa_state) :
  sa_step points s s' -> best_not_above s s'.
Proof.
  intros [_ _ _ H | p d _ E _ _ _ H | p d _ _ _ _ _ H]; unfold best_not_above.
  - left. exact H.
  - right. rewrite H. exact E.
  - left. exact H.
Qed.

(** ** The loops *)

Lemma sa_inner_run (count : nat) (temp : float) :
  forall st,
    sa_invariant points st ->
    exists st',
      sa_inner exp rs points count temp st = Ok st' /\
      sa_invariant points st' /\
      randint_calls st' = (randint_calls st + count)%nat /\
      length (sa_inner_trace exp rs points count temp st) = count /\
      last (sa_inner_trace exp rs points count temp st) st = st' /\
      Sorted (sa_iterates exp rs points) (st :: sa_inner_trace exp rs points count temp st).
Proof.
  induction count as [|count IH]; intros st Hinv.
  - exists st. cbn [sa_inner sa_inner_trace length last].
    split; [reflexivity|]. split; [exact Hinv|]. split; [lia|].
    split; [reflexivity|]. split; [reflexivity|]. constructor; constructor.
  - destruct Hinv as [Hc Hrest].
    destruct (sa_iteration_cases temp st Hc) as [st1 [Hst1 [Hcalls _]]].
    assert (Hit : sa_iterates exp rs points st st1) by (exists temp; exact Hst1).
    assert (Hinv1 : sa_invariant points st1)
      by (apply (sa_iterates_invariant st st1); [split; assumption | exact Hit]).
    destruct (IH st1 Hinv1) as [st' [Hrun [Hinv' [Hcalls' [Hlen [Hlast Hchain]]]]]].
    exists st'. cbn [sa_inner sa_inner_trace]. rewrite Hst1. cbn [bind].
    split; [exact Hrun|]. split; [exact Hinv'|]. split; [lia|].
    split; [simpl; lia|]. split; [rewrite last_cons; exact Hlast|].
    constructor; [exact Hchain | constructor; exact Hit].
Qed.

Lemma sa_outer_run (iters : nat) (fuel : nat) :
  forall temp st k,
    cooling_rounds fuel temp = Some k ->
    sa_invariant points st ->
    exists st',
      sa_outer exp rs points fuel iters temp st = Some (Ok st') /\
      sa_invariant points st' /\
      randint_calls st' = (randint_calls st + k * iters)%nat /\
      length (sa_outer_trace exp rs points fuel iters temp st) = (k * iters)%nat /\
      last (sa_outer_trace exp rs points fuel iters temp st) st = st' /\
      Sorted (sa_iterates exp rs points) (st :: sa_outer_trace exp rs points fuel iters temp st).
Proof.
  induction fuel as [|fuel IH]; intros temp st k Hk Hinv.
  - cbn [cooling_rounds] in Hk. cbn [sa_outer sa_outer_trace].
    destruct (final_temp <? temp)%float; [discriminate|].
    injection Hk as <-. exists st.
    split; [reflexivity|]. split; [exact Hinv|]. split; [lia|].
    split; [reflexivity|]. split; [reflexivity|]. constructor; constructor.
  - cbn [cooling_rounds] in Hk. cbn [sa_outer sa_outer_trace].
    destruct (final_temp <? temp)%float.
    + destruct (cooling_rounds fuel (temp * alpha)%float) as [k'|] eqn:Ek;
        [|discriminate].
      injection Hk as <-.
      destruct (sa_inner_run iters temp st Hinv)
        as [st1 [Hrun [Hinv1 [Hcalls [Hlen [Hlast Hchain]]]]]].
      rewrite Hrun, Hlast.
      destruct (IH (temp * alpha)%float st1 k' Ek Hinv1)
        as [st' [Hrun' [Hinv' [Hcalls' [Hlen' [Hlast' Hchain']]]]]].
      exists st'. split; [exact Hrun'|]. split; [exact Hinv'|]. split; [lia|].
      split; [rewrite length_app; lia|]. split.
      * rewrite last_app_chain, Hlast. exact Hlast'.
      * apply chain_app; [exact Hchain | rewrite Hlast; exact Hchain'].
    + injection Hk as <-. exists st.
      split; [reflexivity|]. split; [exact Hinv|]. split; [lia|].
      split; [reflexivity|]. split; [reflexivity|]. constructor; constructor.
Qed.

Lemma sa_init_invariant :
  exists st0,
    sa_init points = Ok st0 /\
    sa_invariant points st0 /\
    current_path st0 = py_range 0 (length points) /\
    best_path st0 = py_range 0 (length points) /\
    current_distance st0 = closed_length points (py_range 0 (length points)) /\
    best_distance st0 = current_distance st0 /\
    randint_calls st0 = 0%nat.
Proof.
  assert (Ht : is_tour (length points) (py_range 0 (length points)))
    by apply Permutation_refl.
  pose proof (calculate_distance_tour points _ points_nonempty Ht) as Hcalc.
  unfold sa_init. rewrite Hcalc. cbn [bind].
  eexists. split; [reflexivity|]. cbn.
  split; [|auto 10]. unfold sa_invariant. cbn.
  repeat split; auto. apply FloatOrder.ltb_irrefl.
Qed.

(** The whole run, for any number of cooling rounds that the schedule
    takes. *)
Lemma sa_run_facts (fuel k : nat) :
  cooling_rounds fuel initial_temp = Some k ->
  exists st0 st,
    sa_init points = Ok st0 /\
    simulated_annealing_search exp rs points fuel = Some (Ok st) /\
    last (sa_trace exp rs points fuel) st0 = st /\
    hd_error (sa_trace exp rs points fuel) = Some st0 /\
    length (sa_trace exp rs points fuel) =
      S (k * iterations_per_temp (length points)) /\
    randint_calls st = (k * iterations_per_temp (length points))%nat /\
    Sorted (sa_iterates exp rs points) (sa_trace exp rs points fuel) /\
    Forall (sa_invariant points) (sa_trace exp rs points fuel).
Proof.
  intros Hk.
  destruct sa_init_invariant as [st0 [Hinit [Hinv [_ [_ [_ [_ Hcalls0]]]]]]].
  destruct (sa_outer_run (iterations_per_temp (length points)) fuel initial_temp st0 k
              Hk Hinv) as [st [Hrun [Hinv' [Hcalls [Hlen [Hlast Hchain]]]]]].
  exists st0, st. unfold simulated_annealing_search, sa_trace. rewrite Hinit.
  split; [reflexivity|]. split; [exact Hrun|].
  split; [rewrite last_cons; exact Hlast|]. split; [reflexivity|].
  split; [simpl; lia|]. split; [lia|]. split; [exact Hchain|].
  apply (chain_invariant (sa_iterates exp rs points)); auto.
  intros a b. apply sa_iterates_invariant.
Qed.

End AnnealingFacts.

(** ** The cooling schedule *)

Lemma cooling_rounds_more_fuel (fuel : nat) :
  forall temp k fuel',
    cooling_rounds fuel temp = Some k -> (fuel <= fuel')%nat ->
    cooling_rounds fuel' temp = Some k.
Proof.
  induction fuel as [|fuel IH]; intros temp k fuel' Hk Hle.
  - cbn [cooling_rounds] in Hk. destruct fuel'; cbn [cooling_rounds];
      destruct (final_temp <? temp)%float; congruence.
  - destruct fuel' as [|fuel']; [lia|]. cbn [cooling_rounds] in *.
    destruct (final_temp <? temp)%float; [|exact Hk].
    destruct (cooling_rounds fuel (temp * alpha)%float) as [k'|] eqn:E; [|discriminate].
    rewrite (IH _ k' fuel' E) by lia. exact Hk.
Qed.

(** From 100.0, the temperature is at or below 0.01 after exactly 180
    multiplications by 0.95. *)
Lemma cooling_rounds_initial : cooling_rounds 180 initial_temp = Some 180%nat.
Proof. vm_compute. reflexivity. Qed.

Lemma cooling_rounds_short : cooling_rounds 179 initial_temp = None.
Proof. vm_compute. reflexivity. Qed.

Lemma cooling_rounds_enough (fuel : nat) :
  (180 <= fuel)%nat -> cooling_rounds fuel initial_temp = Some 180%nat.
Proof.
  intros H. apply (cooling_rounds_more_fuel 180); [exact cooling_rounds_initial | exact H].
Qed.

Lemma annealing_stores (exp : float -> float) (rs : random_source) (fuel : nat)
    (w : window) (st : sa_state) :
  (2 <= length (coordinates w))%nat ->
  simulated_annealing_search exp rs (points_of (coordinates w)) fuel = Some (Ok st) ->
  is_tour (length (coordinates w)) (best_path st) ->
  optimize_with_simulated_annealing exp rs fuel w =
  Some (_log_optimization_result
          (set_optimized_path (log w (LogText "开始模拟退火优化...")) (best_path st))
          (best_path st) (best_distance st) "模拟退火算法").
Proof.
  intros Hn Hs Ht. unfold optimize_with_simulated_annealing.
  rewrite (check_coordinates_enough w Hn). cbn [negb].
  cbn [log coordinates]. rewrite Hs. unfold try_except, sa_finish.
  rewrite draw_ok; [reflexivity|]. cbn [set_optimized_path coordinates].
  exact (is_tour_in_range _ _ Ht).
Qed.

(** ** The orchestrator's precondition *)

(** C7: with fewer than two points, [run_optimization] and every strategy
    called on its own only log the error and return: whatever the chosen
    algorithm, the solver, the random numbers and the round budget are, the
    result is the window with that one log entry added, so no strategy code
    has run and the stored path and the points are as before. *)
Theorem insufficient_points_rejected
    (IndexToNode : Z -> Z)
    (SolveWithParameters : nat -> (Z -> Z -> result Z) -> result (option (list Z * Z)))
    (exp : float -> float) (rs : random_source) (fuel : nat) (algorithm : string)
    (w : window) :
  (length (coordinates w) < 2)%nat ->
  run_optimization IndexToNode SolveWithParameters exp rs fuel algorithm w =
    Some (log w (LogText "错误：需要至少2个坐标点才能进行优化")) /\
  optimize_xy_only IndexToNode SolveWithParameters w =
    log w (LogText "错误：需要至少2个坐标点才能进行优化") /\
  optimize_with_ortools IndexToNode SolveWithParameters w =
    log w (LogText "错误：需要至少2个坐标点才能进行优化") /\
  optimize_with_nearest_neighbor w =
    Some (log w (LogText "错误：需要至少2个坐标点才能进行优化")) /\
  optimize_with_simulated_annealing exp rs fuel w =
    Some (log w (LogText "错误：需要至少2个坐标点才能进行优化")) /\
  optimized_path (log w (LogText "错误：需要至少2个坐标点才能进行优化")) =
    optimized_path w /\
  coordinates (log w (LogText "错误：需要至少2个坐标点才能进行优化")) = coordinates w.
Proof.
  intros Hn.
  unfold run_optimization, optimize_xy_only, optimize_with_ortools,
    optimize_with_nearest_neighbor, optimize_with_simulated_annealing.
  rewrite (check_coordinates_few w Hn). cbn [negb]. repeat split.
Qed.

(** A window with one point, asked for the annealing strategy. *)
Lemma insufficient_points_rejected_witness :
  (length (coordinates (mkWindow [mkCoordinate 1 2 3 "only"] [5%Z] [])) < 2)%nat /\
  run_optimization (fun i => i) (fun _ _ => Ok None) (fun x => x)
    (mkRandomSource (fun _ => (0, 1)%nat) (fun _ => 0%float)) 0
    "全局优化 (模拟退火)" (mkWindow [mkCoordinate 1 2 3 "only"] [5%Z] []) =
  Some (mkWindow [mkCoordinate 1 2 3 "only"] [5%Z]
          [LogText "错误：需要至少2个坐标点才能进行优化"]).
Proof.
  split; [simpl; lia|].
  apply (insufficient_points_rejected (fun i => i) (fun _ _ => Ok None) (fun x => x)
           (mkRandomSource (fun _ => (0, 1)%nat) (fun _ => 0%float)) 0
           "全局优化 (模拟退火)" (mkWindow [mkCoordinate 1 2 3 "only"] [5%Z] [])).
  simpl; lia.
Defined.

(** ** Tours *)

Lemma py_range_NoDup (a b : nat) : NoDup (py_range a b).
Proof.
  pose proof (py_range_sorted a b) as HS.
  induction HS as [|x l HS IH HF]; constructor; [|exact IH].
  intros Hin. rewrite Forall_forall in HF. specialize (HF x Hin). lia.
Qed.

Lemma is_tour_exactly_once (n : nat) (path : list Z) :
  is_tour n path ->
  length path = n /\ NoDup path /\ (forall k, In k path <-> in_range n k).
Proof.
  intros H. split; [|split].
  - rewrite (Permutation_length H), py_range_length. lia.
  - apply (Permutation_NoDup (Permutation_sym H)). apply py_range_NoDup.
  - intros k. split; intros Hk.
    + apply (Permutation_in _ H) in Hk. apply py_range_In in Hk. unfold in_range. lia.
    + apply (Permutation_in _ (Permutation_sym H)). apply py_range_In.
      unfold in_range in Hk. lia.
Qed.

(** C1: for at least two points, the nearest-neighbour strategy and the
    simulated-annealing strategy (for every [np.exp] and all random numbers)
    each finish and store a path that is a permutation of [0..n-1]: it has
    [n] entries, none twice, and its entries are exactly the indices in
    range. *)
Theorem strategies_store_permutations (exp : float -> float) (rs : random_source)
    (fuel : nat) (w : window) :
  (2 <= length (coordinates w))%nat ->
  (180 <= fuel)%nat ->
  (exists w',
     optimize_with_nearest_neighbor w = Some w' /\
     is_tour (length (coordinates w)) (optimized_path w') /\
     length (optimized_path w') = length (coordinates w) /\
     NoDup (optimized_path w') /\
     (forall k, In k (optimized_path w') <-> in_range (length (coordinates w)) k)) /\
  (exists w',
     optimize_with_simulated_annealing exp rs fuel w = Some w' /\
     is_tour (length (coordinates w)) (optimized_path w') /\
     length (optimized_path w') = length (coordinates w) /\
     NoDup (optimized_path w') /\
     (forall k, In k (optimized_path w') <-> in_range (length (coordinates w)) k)).
Proof.
  intros Hn Hfuel. split.
  - destruct (nearest_neighbor_path_tour (coordinates w) Hn) as [path [Hp Ht]].
    destruct (nearest_neighbor_stores w path Hn Hp (is_tour_in_range _ _ Ht))
      as [w' [Hw' [Hop _]]].
    exists w'. rewrite Hop. split; [exact Hw'|]. split; [exact Ht|].
    apply is_tour_exactly_once. exact Ht.
  - assert (Hpts : (1 <= length (points_of (coordinates w)))%nat)
      by (rewrite points_of_length; lia).
    destruct (sa_run_facts exp rs (points_of (coordinates w)) Hpts fuel 180
                (cooling_rounds_enough fuel Hfuel))
      as [st0 [st [_ [Hs [Hlast [Hhd [_ [_ [_ Hall]]]]]]]]].
    assert (Hinv : sa_invariant (points_of (coordinates w)) st).
    { rewrite Forall_forall in Hall. apply Hall. rewrite <- Hlast.
      apply last_In. intros E. rewrite E in Hhd. discriminate. }
    destruct Hinv as [_ [Hbest _]]. rewrite points_of_length in Hbest.
    eexists. split; [apply (annealing_stores exp rs fuel w st Hn Hs Hbest)|].
    cbn [_log_optimization_result log set_optimized_path optimized_path].
    split; [exact Hbest|]. apply is_tour_exactly_once. exact Hbest.
Qed.

(** Both strategies on the square. *)
Lemma strategies_store_permutations_witness :
  (2 <= length (coordinates square_window))%nat /\
  (exists w',
     optimize_with_nearest_neighbor square_window = Some w' /\
     is_tour 4 (optimized_path w')) /\
  (exists w',
     optimize_with_simulated_annealing (fun x => x) fixed_draws 180 square_window = Some w' /\
     is_tour 4 (optimized_path w')).
Proof.
  assert (Hn : (2 <= length (coordinates square_window))%nat) by (simpl; lia).
  split; [exact Hn|].
  destruct (strategies_store_permutations (fun x => x) fixed_draws 180 square_window
              Hn (le_n 180)) as [[w1 [H1 [T1 _]]] [w2 [H2 [T2 _]]]].
  split; [exists w1 | exists w2]; auto.
Defined.

(** ** Termination of the annealing run *)

Lemma sa_outer_more_fuel (exp : float -> float) (rs : random_source)
    (points : list vec3) (iters : nat) (fuel : nat) :
  forall temp st r fuel',
    sa_outer exp rs points fuel iters temp st = Some r -> (fuel <= fuel')%nat ->
    sa_outer exp rs points fuel' iters temp st = Some r.
Proof.
  induction fuel as [|fuel IH]; intros temp st r fuel' Hr Hle.
  - cbn [sa_outer] in Hr. destruct fuel'; cbn [sa_outer];
      destruct (final_temp <? temp)%float; congruence.
  - destruct fuel' as [|fuel']; [lia|]. cbn [sa_outer] in *.
    destruct (final_temp <? temp)%float; [|exact Hr].
    destruct (sa_inner exp rs points iters temp st); [|exact Hr].
    apply (IH _ _ _ fuel' Hr). lia.
Qed.

(** C8: for at least two points, every [np.exp] and all random numbers, the
    annealing run ends: the temperature, started at 100.0 and multiplied by
    0.95 after each pass of [max(100, 2n)] inner iterations, is no longer
    above 0.01 after exactly 180 cooling steps (179 are not enough), the
    search returns a state after [180 * max(100, 2n)] inner iterations, a
    larger round budget changes nothing, and the strategy returns. *)
Theorem annealing_terminates (exp : float -> float) (rs : random_source)
    (fuel : nat) (w : window) :
  (2 <= length (coordinates w))%nat ->
  (180 <= fuel)%nat ->
  cooling_rounds fuel initial_temp = Some 180%nat /\
  cooling_rounds 179 initial_temp = None /\
  iterations_per_temp (length (coordinates w)) =
    Nat.max 100 (2 * length (coordinates w)) /\
  exists st w',
    simulated_annealing_search exp rs (points_of (coordinates w)) fuel = Some (Ok st) /\
    simulated_annealing_search exp rs (points_of (coordinates w)) 180 = Some (Ok st) /\
    randint_calls st = (180 * Nat.max 100 (2 * length (coordinates w)))%nat /\
    optimize_with_simulated_annealing exp rs fuel w = Some w'.
Proof.
  intros Hn Hfuel.
  split; [exact (cooling_rounds_enough fuel Hfuel)|].
  split; [exact cooling_rounds_short|].
  split; [unfold iterations_per_temp; f_equal; lia|].
  assert (Hpts : (1 <= length (points_of (coordinates w)))%nat)
    by (rewrite points_of_length; lia).
  destruct (sa_run_facts exp rs (points_of (coordinates w)) Hpts 180 180
              cooling_rounds_initial)
    as [st0 [st [Hinit [Hs [Hlast [Hhd [_ [Hcalls [_ Hall]]]]]]]]].
  assert (Hs' : simulated_annealing_search exp rs (points_of (coordinates w)) fuel
                = Some (Ok st)).
  { unfold simulated_annealing_search in *. rewrite Hinit in *.
    apply (sa_outer_more_fuel _ _ _ _ 180); [exact Hs | exact Hfuel]. }
  assert (Hinv : sa_invariant (points_of (coordinates w)) st).
  { rewrite Forall_forall in Hall. apply Hall. rewrite <- Hlast.
    apply last_In. intros E. rewrite E in Hhd. discriminate. }
  destruct Hinv as [_ [Hbest _]]. rewrite points_of_length in Hbest.
  exists st. eexists.
  split; [exact Hs'|]. split; [exact Hs|]. split.
  - rewrite Hcalls, points_of_length. unfold iterations_per_temp. f_equal. f_equal. lia.
  - apply (annealing_stores exp rs fuel w st Hn Hs' Hbest).
Qed.

(** The annealing run on the square with a budget of 200 rounds. *)
Lemma annealing_terminates_witness :
  (2 <= length (coordinates square_window))%nat /\
  (180 <= 200)%nat /\
  exists st w',
    simulated_annealing_search (fun x => x) fixed_draws
      (points_of (coordinates square_window)) 200 = Some (Ok st) /\
    randint_calls st = (180 * 100)%nat /\
    optimize_with_simulated_annealing (fun x => x) fixed_draws 200 square_window = Some w'.
Proof.
  assert (Hn : (2 <= length (coordinates square_window))%nat) by (simpl; lia).
  assert (Hf : (180 <= 200)%nat) by lia.
  split; [exact Hn|]. split; [exact Hf|].
  destruct (annealing_terminates (fun x => x) fixed_draws 200 square_window Hn Hf)
    as [_ [_ [_ [st [w' [H1 [_ [H2 H3]]]]]]]].
  exists st, w'. split; [exact H1|]. split; [exact H2 | exact H3].
Defined.

(** ** Costs along the annealing run *)

Lemma sa_trace_start (exp : float -> float) (rs : random_source) (points : list vec3)
    (fuel : nat) (st0 : sa_state) :
  hd_error (sa_trace exp rs points fuel) = Some st0 ->
  exists tr, sa_trace exp rs points fuel = st0 :: tr.
Proof.
  destruct (sa_trace exp rs points fuel) as [|s tr]; [discriminate|].
  intros [= ->]. exists tr. reflexivity.
Qed.

Lemma sa_invariant_closed (points : list vec3) (s : sa_state) :
  (1 <= length points)%nat ->
  sa_invariant points s ->
  current_distance s = closed_length points (current_path s) /\
  best_distance s = closed_length points (best_path s).
Proof.
  intros Hn [Hc [Hb [Hcd [Hbd _]]]].
  rewrite (calculate_distance_tour points _ Hn Hc) in Hcd.
  rewrite (calculate_distance_tour points _ Hn Hb) in Hbd.
  split; congruence.
Qed.

(** C4: the annealing run starts from the identity path [0..n-1], the local
    [calculate_distance] gives for every tour its closed length (the sum of
    the distances between consecutive entries plus the distance from the
    last entry back to the first), and at every point of the run the
    current and the best cost are the closed lengths of the current and the
    best path. *)
Theorem annealing_cost_is_closed_length (exp : float -> float) (rs : random_source)
    (fuel : nat) (points : list vec3) :
  (2 <= length points)%nat ->
  (180 <= fuel)%nat ->
  (exists st0,
     sa_init points = Ok st0 /\
     hd_error (sa_trace exp rs points fuel) = Some st0 /\
     current_path st0 = map Z.of_nat (seq 0 (length points)) /\
     best_path st0 = current_path st0 /\
     current_distance st0 = closed_length points (current_path st0)) /\
  (forall path,
     is_tour (length points) path ->
     calculate_distance points path = Ok (closed_length points path)) /\
  Forall (fun s => current_distance s = closed_length points (current_path s) /\
                   best_distance s = closed_length points (best_path s))
    (sa_trace exp rs points fuel).
Proof.
  intros Hn Hfuel.
  assert (Hpts : (1 <= length points)%nat) by lia.
  destruct (sa_run_facts exp rs points Hpts fuel 180 (cooling_rounds_enough fuel Hfuel))
    as [st0 [st [Hinit [_ [_ [Hhd [_ [_ [_ Hall]]]]]]]]].
  destruct (sa_init_invariant points Hpts) as [st0' [Hinit' [_ [Hcp [Hbp [Hcd _]]]]]].
  rewrite Hinit in Hinit'. injection Hinit' as <-.
  split; [|split].
  - exists st0. split; [exact Hinit|]. split; [exact Hhd|].
    split; [rewrite Hcp; unfold py_range; rewrite Nat.sub_0_r; reflexivity|].
    split; [congruence|]. rewrite Hcp. exact Hcd.
  - intros path Ht. apply calculate_distance_tour; assumption.
  - eapply Forall_impl; [|exact Hall]. intros s. apply sa_invariant_closed. exact Hpts.
Qed.

(** The closed length of a tour of the square, and the costs along a run on it. *)
Lemma annealing_cost_is_closed_length_witness :
  (2 <= length (points_of square))%nat /\
  (180 <= 180)%nat /\
  calculate_distance (points_of square) [2; 0; 3; 1] =
    Ok (closed_length (points_of square) [2; 0; 3; 1]) /\
  Forall (fun s => current_distance s = closed_length (points_of square) (current_path s) /\
                   best_distance s = closed_length (points_of square) (best_path s))
    (sa_trace (fun x => x) fixed_draws (points_of square) 180).
Proof.
  assert (Hn : (2 <= length (points_of square))%nat) by (simpl; lia).
  split; [exact Hn|]. split; [exact (le_n 180)|].
  destruct (annealing_cost_is_closed_length (fun x => x) fixed_draws 180
              (points_of square) Hn (le_n 180)) as [_ [Hcalc Hall]].
  split; [|exact Hall]. apply Hcalc.
  unfold is_tour. simpl.
  apply Permutation_sym.
  apply (perm_trans (l' := [0; 2; 1; 3])).
  - apply perm_skip. apply perm_swap.
  - apply (perm_trans (l' := [2; 0; 1; 3])); [apply perm_swap|].
    do 2 apply perm_skip. apply perm_swap.
Defined.

(** C10: at every point of an annealing run, for every [np.exp] and all
    random numbers, the best cost is the closed length of the best path, as
    [calculate_distance] gives it, and the current cost is never below it;
    when the closed length of the initial path is a number (and [np.exp]
    gives NaN on NaN), the best cost is at most the current cost throughout.
    The distance logged at the end is the closed length of the path that is
    stored with it. *)
Theorem annealing_best_cost_invariant (exp : float -> float) (rs : random_source)
    (fuel : nat) (w : window) :
  (2 <= length (coordinates w))%nat ->
  (180 <= fuel)%nat ->
  Forall (fun s =>
            calculate_distance (points_of (coordinates w)) (best_path s) =
              Ok (best_distance s) /\
            best_distance s = closed_length (points_of (coordinates w)) (best_path s) /\
            (current_distance s <? best_distance s)%float = false)
    (sa_trace exp rs (points_of (coordinates w)) fuel) /\
  (exp_keeps_nan exp ->
   is_nan (closed_length (points_of (coordinates w))
             (py_range 0 (length (coordinates w)))) = false ->
   Forall (fun s => (best_distance s <=? current_distance s)%float = true)
     (sa_trace exp rs (points_of (coordinates w)) fuel)) /\
  exists st w',
    simulated_annealing_search exp rs (points_of (coordinates w)) fuel = Some (Ok st) /\
    optimize_with_simulated_annealing exp rs fuel w = Some w' /\
    optimized_path w' = best_path st /\
    log_view w' =
      log_view w ++ [LogText "开始模拟退火优化..."; LogDone "模拟退火算法" (best_distance st);
                     LogOrder (map (fun i => i + 1) (best_path st))] /\
    best_distance st = closed_length (points_of (coordinates w)) (best_path st).
Proof.
  intros Hn Hfuel.
  set (points := points_of (coordinates w)).
  assert (Hpts : (1 <= length points)%nat)
    by (unfold points; rewrite points_of_length; lia).
  destruct (sa_run_facts exp rs points Hpts fuel 180 (cooling_rounds_enough fuel Hfuel))
    as [st0 [st [Hinit [Hs [Hlast [Hhd [_ [_ [Hchain Hall]]]]]]]]].
  split; [|split].
  - eapply Forall_impl; [|exact Hall]. intros s Hinv.
    destruct (sa_invariant_closed points s Hpts Hinv) as [_ Hb].
    destruct Hinv as [_ [_ [_ [Hbd Hlt]]]]. auto.
  - intros Hexp Hnum.
    destruct (sa_trace_start exp rs points fuel st0 Hhd) as [tr Htr].
    rewrite Htr in *.
    destruct (sa_init_invariant points Hpts) as [st0' [Hinit' [Hinv0 [_ [_ [Hcd [Hbd _]]]]]]].
    rewrite Hinit in Hinit'. injection Hinit' as <-.
    assert (H0 : sa_invariant points st0 /\ sa_costs_ordered st0).
    { assert (Hnum' : is_nan (closed_length points (py_range 0 (length points))) = false)
        by (unfold points; rewrite points_of_length; exact Hnum).
      split; [exact Hinv0|]. unfold sa_costs_ordered. rewrite Hbd, Hcd.
      split; [exact Hnum'|]. apply FloatOrder.leb_refl. exact Hnum'. }
    pose proof (chain_invariant (sa_iterates exp rs points)
                  (fun s => sa_invariant points s /\ sa_costs_ordered s) tr) as Hci.
    eapply Forall_impl; [|apply Hci; [|exact H0|exact Hchain]].
    + intros s [_ [_ Hle]]. exact Hle.
    + intros a b [Ha Hoa] Hab. split.
      * exact (sa_iterates_invariant exp rs points Hpts a b Ha Hab).
      * destruct Ha as [Hc _].
        exact (sa_iterates_costs_ordered exp rs points Hpts a b Hexp Hc Hoa Hab).
  - assert (Hinv : sa_invariant points st).
    { rewrite Forall_forall in Hall. apply Hall. rewrite <- Hlast.
      apply last_In. intros E. rewrite E in Hhd. discriminate. }
    destruct (sa_invariant_closed points st Hpts Hinv) as [_ Hclosed].
    destruct Hinv as [_ [Hbest _]]. unfold points in Hbest.
    rewrite points_of_length in Hbest.
    exists st. eexists.
    split; [exact Hs|].
    split; [apply (annealing_stores exp rs fuel w st Hn Hs Hbest)|].
    cbn [_log_optimization_result log set_optimized_path optimized_path log_view].
    split; [reflexivity|]. split; [|exact Hclosed].
    rewrite <- !app_assoc. reflexivity.
Qed.

(** The result of a run on the square, whose costs are numbers. *)
Lemma annealing_best_cost_invariant_witness :
  (2 <= length (coordinates square_window))%nat /\
  (180 <= 180)%nat /\
  Forall (fun s => (best_distance s <=? current_distance s)%float = true)
    (sa_trace (fun x => x) fixed_draws (points_of (coordinates square_window)) 180) /\
  exists st w',
    simulated_annealing_search (fun x => x) fixed_draws
      (points_of (coordinates square_window)) 180 = Some (Ok st) /\
    optimize_with_simulated_annealing (fun x => x) fixed_draws 180 square_window = Some w' /\
    optimized_path w' = best_path st /\
    best_distance st =
      closed_length (points_of (coordinates square_window)) (best_path st).
Proof.
  assert (Hn : (2 <= length (coordinates square_window))%nat) by (simpl; lia).
  split; [exact Hn|]. split; [exact (le_n 180)|].
  destruct (annealing_best_cost_invariant (fun x => x) fixed_draws 180 square_window
              Hn (le_n 180)) as [_ [Hle [st [w' [H1 [H2 [H3 [_ H4]]]]]]]].
  split.
  - apply Hle; [intros x Hx; exact Hx|].
    exact (finite_coordinates_closed_length square _ square_finite).
  - exists st, w'. auto.
Defined.

(** ** The best cost never goes up *)

Lemma best_not_above_refl (s : sa_state) : best_not_above s s.
Proof. left. reflexivity. Qed.

Lemma best_not_above_trans : Relations_1.Transitive best_not_above.
Proof.
  intros a b c [Hab|Hab] [Hbc|Hbc]; unfold best_not_above.
  - left. congruence.
  - right. rewrite <- Hab. exact Hbc.
  - right. rewrite Hbc. exact Hab.
  - right. apply FloatOrder.ltb_trans with (best_distance b); assumption.
Qed.

Lemma best_not_above_leb (s s' : sa_state) :
  is_nan (best_distance s) = false ->
  best_not_above s s' ->
  (best_distance s' <=? best_distance s)%float = true.
Proof.
  intros Hnum [->|Hlt]; [apply FloatOrder.leb_refl; exact Hnum|].
  apply FloatOrder.ltb_leb. exact Hlt.
Qed.

(** C3: in an annealing run, for every [np.exp] and all random numbers,
    every pass of the inner loop either leaves the tours and costs as they
    are or accepts a candidate, and the best path and cost are replaced, by
    that candidate, exactly when its cost is strictly below the best cost
    (relation [sa_step]).  So the best cost after any pass is the best cost
    at any earlier point of the run or strictly below it, which for a best
    cost that is a number is: less than or equal to it. *)
Theorem best_cost_never_increases (exp : float -> float) (rs : random_source)
    (fuel : nat) (points : list vec3) :
  (2 <= length points)%nat ->
  (180 <= fuel)%nat ->
  Sorted (sa_step points) (sa_trace exp rs points fuel) /\
  (forall j k d,
     (j <= k < length (sa_trace exp rs points fuel))%nat ->
     best_not_above (nth j (sa_trace exp rs points fuel) d)
       (nth k (sa_trace exp rs points fuel) d)) /\
  (forall j k d,
     (j <= k < length (sa_trace exp rs points fuel))%nat ->
     is_nan (best_distance (nth j (sa_trace exp rs points fuel) d)) = false ->
     (best_distance (nth k (sa_trace exp rs points fuel) d)
      <=? best_distance (nth j (sa_trace exp rs points fuel) d))%float = true).
Proof.
  intros Hn Hfuel.
  assert (Hpts : (1 <= length points)%nat) by lia.
  destruct (sa_run_facts exp rs points Hpts fuel 180 (cooling_rounds_enough fuel Hfuel))
    as [st0 [st [_ [_ [_ [_ [_ [_ [Hchain Hall]]]]]]]]].
  assert (Hsteps : Sorted (sa_step points) (sa_trace exp rs points fuel)).
  { apply (chain_weaken (sa_iterates exp rs points) _ (sa_invariant points));
      [|exact Hall | exact Hchain].
    intros a b [Hc _] Hab. exact (sa_iterates_step exp rs points Hpts a b Hc Hab). }
  assert (Hmono : forall j k d,
             (j <= k < length (sa_trace exp rs points fuel))%nat ->
             best_not_above (nth j (sa_trace exp rs points fuel) d)
               (nth k (sa_trace exp rs points fuel) d)).
  { intros j k d [Hjk Hk].
    destruct (Nat.eq_dec j k) as [->|Hne]; [apply best_not_above_refl|].
    apply strongly_sorted_nth; [|lia].
    apply Sorted_StronglySorted; [exact best_not_above_trans|].
    apply (chain_weaken (sa_step points) _ (fun _ => True)); [| |exact Hsteps].
    - intros a b _. apply sa_step_best_not_above.
    - apply Forall_forall. auto. }
  split; [exact Hsteps|]. split; [exact Hmono|].
  intros j k d Hjk Hnum. apply best_not_above_leb; [exact Hnum|].
  apply Hmono. exact Hjk.
Qed.

(** Two points of a run on the square. *)
Lemma best_cost_never_increases_witness :
  (2 <= length (points_of square))%nat /\
  (180 <= 180)%nat /\
  Sorted (sa_step (points_of square))
    (sa_trace (fun x => x) fixed_draws (points_of square) 180) /\
  best_not_above
    (nth 7 (sa_trace (fun x => x) fixed_draws (points_of square) 180)
       (mkSaState [] 0 [] 0 0 0))
    (nth 4000 (sa_trace (fun x => x) fixed_draws (points_of square) 180)
       (mkSaState [] 0 [] 0 0 0)).
Proof.
  assert (Hn : (2 <= length (points_of square))%nat) by (simpl; lia).
  split; [exact Hn|]. split; [exact (le_n 180)|].
  destruct (best_cost_never_increases (fun x => x) fixed_draws 180
              (points_of square) Hn (le_n 180)) as [Hsteps [Hmono _]].
  split; [exact Hsteps|]. apply Hmono.
  destruct (sa_run_facts (fun x => x) fixed_draws (points_of square)
              (le_S _ _ (le_S _ _ (le_S _ _ (le_n 1)))) 180 180 cooling_rounds_initial)
    as [_ [_ [_ [_ [_ [_ [Hlen _]]]]]]].
  rewrite Hlen. unfold iterations_per_temp. simpl length.
  change (Nat.max 100 (4 * 2)) with 100%nat. lia.
Defined.

(** ** The integer costs of the OR-Tools strategies *)

Lemma int_of_float_truncates (f : float) (c : Z) :
  int_of_float f = Ok c ->
  exists num den,
    magnitude f = Some (num, den) /\ 0 < den /\
    Z.abs c * den <= num < (Z.abs c + 1) * den.
Proof.
  unfold int_of_float, magnitude.
  destruct (Prim2SF f) as [s| s | | s m e]; try discriminate.
  - intros [= <-]. exists 0, 1. split; [reflexivity|]. simpl. lia.
  - destruct (0 <=? e) eqn:Ee.
    + apply Z.leb_le in Ee.
      assert (Hp : 0 < 2 ^ e) by (apply Z.pow_pos_nonneg; lia).
      assert (Ha : 0 <= Z.pos m * 2 ^ e) by (apply Z.mul_nonneg_nonneg; lia).
      set (a := Z.pos m * 2 ^ e) in *. clearbody a.
      intros Hc. assert (Hc' : c = if s then - a else a) by congruence.
      exists a, 1. split; [reflexivity|]. split; [lia|].
      subst c. destruct s; lia.
    + apply Z.leb_gt in Ee.
      assert (Hden : 0 < 2 ^ (- e)) by (apply Z.pow_pos_nonneg; lia).
      assert (Hq : 0 <= Z.pos m / 2 ^ (- e)) by (apply Z.div_pos; lia).
      pose proof (Z.mul_div_le (Z.pos m) (2 ^ (- e)) Hden) as Hlo.
      pose proof (Z.mul_succ_div_gt (Z.pos m) (2 ^ (- e)) Hden) as Hhi.
      set (q := Z.pos m / 2 ^ (- e)) in *. clearbody q.
      set (den := 2 ^ (- e)) in *. clearbody den.
      intros Hc. assert (Hc' : c = if s then - q else q) by congruence.
      exists (Z.pos m), den. split; [reflexivity|]. split; [exact Hden|].
      subst c. destruct s; nia.
Qed.

(** C5 (as the code has it): for point indices [i] and [j], the cost that
    either [distance_callback] returns is [int] of the float product of the
    distance and 100, that is the product truncated toward zero, not
    rounded: written as a fraction [num / den], the magnitude of the product
    lies between the returned cost and the cost plus one, the upper end
    excluded.  The distance recovered from the cost can so be short of the
    distance by almost 0.01. *)
Theorem distance_callback_truncates (IndexToNode : Z -> Z) (cs : list coordinate)
    (from_index to_index : Z) :
  in_range (length cs) (IndexToNode from_index) ->
  in_range (length cs) (IndexToNode to_index) ->
  distance_callback IndexToNode (points_of cs) from_index to_index =
    int_of_float
      (dist (points_of cs) (IndexToNode from_index) (IndexToNode to_index) * 100)%float /\
  (forall c,
     distance_callback IndexToNode (points_of cs) from_index to_index = Ok c ->
     exists num den,
       magnitude (dist (points_of cs) (IndexToNode from_index) (IndexToNode to_index)
                  * 100)%float = Some (num, den) /\
       0 < den /\ Z.abs c * den <= num < (Z.abs c + 1) * den) /\
  (forall c,
     distance_callback_xy IndexToNode (locations_2d_of cs) from_index to_index = Ok c ->
     exists a b num den,
       nth_error (locations_2d_of cs) (Z.to_nat (IndexToNode from_index)) = Some a /\
       nth_error (locations_2d_of cs) (Z.to_nat (IndexToNode to_index)) = Some b /\
       magnitude (norm2 a b * 100)%float = Some (num, den) /\
       0 < den /\ Z.abs c * den <= num < (Z.abs c + 1) * den).
Proof.
  intros Hi Hj.
  assert (H3 : distance_callback IndexToNode (points_of cs) from_index to_index =
               int_of_float
                 (dist (points_of cs) (IndexToNode from_index) (IndexToNode to_index)
                  * 100)%float).
  { unfold distance_callback.
    rewrite (py_index_point (points_of cs) (IndexToNode from_index))
      by (rewrite points_of_length; exact Hi).
    rewrite (py_index_point (points_of cs) (IndexToNode to_index))
      by (rewrite points_of_length; exact Hj).
    reflexivity. }
  split; [exact H3|]. split.
  - intros c Hc. rewrite H3 in Hc. apply int_of_float_truncates. exact Hc.
  - intros c Hc. unfold distance_callback_xy in Hc.
    assert (Hlen : length (locations_2d_of cs) = length cs) by apply length_map.
    rewrite (py_index_front (locations_2d_of cs) (IndexToNode from_index) (0, 0)%float)
      in Hc by (rewrite Hlen; exact Hi).
    rewrite (py_index_front (locations_2d_of cs) (IndexToNode to_index) (0, 0)%float)
      in Hc by (rewrite Hlen; exact Hj).
    cbn [bind] in Hc.
    destruct (int_of_float_truncates _ c Hc) as [num [den [Hm Hb]]].
    eexists. eexists. exists num, den.
    split; [apply nth_error_nth'; rewrite Hlen; unfold in_range in Hi; lia|].
    split; [apply nth_error_nth'; rewrite Hlen; unfold in_range in Hj; lia|].
    split; [exact Hm | exact Hb].
Qed.

(** The cost of the diagonal of the square: 14.142... times 100 gives 1414. *)
Lemma distance_callback_truncates_witness :
  in_range (length square) 0 /\
  in_range (length square) 2 /\
  distance_callback (fun i => i) (points_of square) 0 2 = Ok 1414 /\
  exists num den,
    magnitude (dist (points_of square) 0 2 * 100)%float = Some (num, den) /\
    0 < den /\ Z.abs 1414 * den <= num < (Z.abs 1414 + 1) * den.
Proof.
  assert (H0 : in_range (length square) 0) by (unfold in_range; simpl; lia).
  assert (H2 : in_range (length square) 2) by (unfold in_range; simpl; lia).
  split; [exact H0|]. split; [exact H2|].
  assert (Hc : distance_callback (fun i => i) (points_of square) 0 2 = Ok 1414)
    by (vm_compute; reflexivity).
  split; [exact Hc|].
  destruct (distance_callback_truncates (fun i => i) square 0 2 H0 H2) as [_ [Htr _]].
  exact (Htr 1414 Hc).
Defined.

(** C5 (as stated) fails: for the points (0,0,0) and (0.0078125,0,0) the
    distance times 100 is 0.78125, which rounds to 1, but the cost the
    callback returns is 0; the distance recovered from it, 0/100, is off by
    0.0078125, more than 0.005. *)
Lemma distance_callback_does_not_round :
  distance_callback (fun i => i) [(0, 0, 0); (0.0078125, 0, 0)]%float 0 1 = Ok 0 /\
  py_round (norm3 (0, 0, 0) (0.0078125, 0, 0) * 100)%float = Ok 1 /\
  (0.005 <? abs (norm3 (0, 0, 0) (0.0078125, 0, 0) - float_of_int 0 / 100))%float = true.
Proof.
  repeat split; vm_compute; reflexivity.
Qed.

(** ** The square of the specification's scenario *)

(** C9: on the four corners (0,0,0), (10,0,0), (10,10,0), (0,10,0) the
    nearest-neighbour strategy stores exactly the path [0,1,2,3], and the
    length it logs for it, computed by [_calculate_distance_3d] as an open
    path, is exactly 30.0. *)
Theorem square_nearest_neighbor :
  nearest_neighbor_path square = Some (Ok [0; 1; 2; 3]) /\
  _calculate_distance_3d (points_of square) [0; 1; 2; 3] = Ok 30%float /\
  forall old_path logged,
    optimize_with_nearest_neighbor (mkWindow square old_path logged) =
    Some (mkWindow square [0; 1; 2; 3]
            (((logged ++ [LogText "开始最近邻算法优化..."]) ++
              [LogDone "最近邻算法" 30%float]) ++ [LogOrder [1; 2; 3; 4]])).
Proof.
  split; [vm_compute; reflexivity|].
  split; [vm_compute; reflexivity|].
  intros old_path logged. reflexivity.
Qed.
(** * Further properties *)

(** ** A distance does not depend on the order of its two points *)

Module FloatSym.

Section Sym.
Variables prec emax : Z.

Lemma binary_round_aux_same_abs s1 s2 m e l :
  sf_same_abs (binary_round_aux prec emax s1 m e l) (binary_round_aux prec emax s2 m e l).
Proof.
  unfold binary_round_aux.
  destruct (shr_fexp prec emax m e l) as [mrs' e'].
  destruct (shr_fexp prec emax _ e' loc_Exact) as [mrs'' e''].
  destruct (shr_m mrs'') as [|p|p]; simpl; auto.
  destruct (e'' <=? emax - prec); simpl; auto.
Qed.

Lemma binary_round_same_abs s1 s2 m e :
  sf_same_abs (binary_round prec emax s1 m e) (binary_round prec emax s2 m e).
Proof.
  unfold binary_round. destruct (shl_align m e _) as [mz ez].
  apply binary_round_aux_same_abs.
Qed.

Lemma binary_normalize_opp z e :
  sf_same_abs (binary_normalize prec emax z e false)
    (binary_normalize prec emax (- z) e false).
Proof.
  destruct z as [|p|p]; simpl; auto; apply binary_round_same_abs.
Qed.

Lemma SFsub_swap a b :
  sf_same_abs (SFsub prec emax a b) (SFsub prec emax b a).
Proof.
  destruct a as [sa|sa| |sa ma ea], b as [sb|sb| |sb mb eb]; simpl; auto;
    try (destruct sa, sb; simpl; auto; fail).
  rewrite (Z.min_comm eb ea).
  match goal with
  | |- sf_same_abs (binary_normalize _ _ (?x - ?y) _ _) _ =>
      replace (y - x) with (- (x - y)) by lia
  end.
  apply binary_normalize_opp.
Qed.

Lemma SFmul_same_abs x y :
  sf_same_abs x y -> SFmul prec emax x x = SFmul prec emax y y.
Proof.
  destruct x as [sx|sx| |sx mx ex], y as [sy|sy| |sy my ey]; simpl; try tauto; intros H.
  - destruct sx, sy; reflexivity.
  - destruct sx, sy; reflexivity.
  - destruct H as [-> ->]. destruct sx, sy; reflexivity.
Qed.

End Sym.

Lemma square_sub_swap (a b : float) :
  ((a - b) * (a - b))%float = ((b - a) * (b - a))%float.
Proof.
  apply Prim2SF_inj. rewrite !mul_spec, !sub_spec.
  apply SFmul_same_abs. apply SFsub_swap.
Qed.

Lemma sub_self_zero (a : float) :
  is_finite a = true -> Prim2SF (a - a)%float = S754_zero false.
Proof.
  intros Ha. apply FloatSign.is_finite_sf in Ha. rewrite sub_spec.
  destruct (Prim2SF a) as [s|s| |s m e]; try discriminate; simpl.
  - destruct s; reflexivity.
  - rewrite Z.sub_diag. reflexivity.
Qed.

Lemma square_self_zero (a : float) :
  is_finite a = true -> ((a - a) * (a - a))%float = 0%float.
Proof.
  intros Ha. apply Prim2SF_inj. rewrite mul_spec, (sub_self_zero a Ha). reflexivity.
Qed.

Lemma mul_square_plus_or_nan (a : float) :
  sf_plus_or_nan (Prim2SF (a * a)%float) = true.
Proof.
  rewrite mul_spec. destruct (Prim2SF a) as [s|s| |s m e] eqn:E; try reflexivity.
  - destruct s; reflexivity.
  - destruct s; reflexivity.
  - pose proof (FloatSign.SFmul_square prec emax (S754_finite s m e) eq_refl) as H.
    unfold SF64mul. destruct (SFmul prec emax _ _); simpl in *; auto.
Qed.

Lemma add_plus_or_nan (a b : float) :
  sf_plus_or_nan (Prim2SF a) = true -> sf_plus_or_nan (Prim2SF b) = true ->
  sf_plus_or_nan (Prim2SF (a + b)%float) = true.
Proof.
  intros Ha Hb. rewrite add_spec.
  destruct (Prim2SF a) as [sa|sa| |sa ma ea] eqn:Ea; try reflexivity;
    destruct (Prim2SF b) as [sb|sb| |sb mb eb] eqn:Eb; try reflexivity;
    simpl in Ha, Hb;
    match goal with
    | |- sf_plus_or_nan (SF64add ?x ?y) = true =>
        pose proof (FloatSign.SFadd_plus prec emax x y Ha Hb) as H;
        unfold SF64add; destruct (SFadd prec emax x y); simpl in *; auto
    end.
Qed.

Lemma sqrt_plus_or_nan (a : float) :
  sf_plus_or_nan (Prim2SF a) = true ->
  sf_plus_or_nan (Prim2SF (PrimFloat.sqrt a)) = true.
Proof.
  intros Ha. rewrite sqrt_spec.
  destruct (Prim2SF a) as [s|s| |s m e] eqn:E; try reflexivity; simpl in Ha;
    match goal with
    | |- sf_plus_or_nan (SF64sqrt ?x) = true =>
        pose proof (FloatSign.SFsqrt_plus prec emax x Ha) as H;
        unfold SF64sqrt; destruct (SFsqrt prec emax x); simpl in *; auto
    end.
Qed.

Lemma mul_100_plus_or_nan (a : float) :
  sf_plus_or_nan (Prim2SF a) = true ->
  sf_plus_or_nan (Prim2SF (a * 100)%float) = true.
Proof.
  intros Ha. rewrite mul_spec.
  change (Prim2SF 100%float) with (S754_finite false 7036874417766400 (-46)).
  destruct (Prim2SF a) as [[|]|[|]| |[|] m e] eqn:E; try discriminate; try reflexivity.
  unfold SF64mul, SFmul.
  pose proof (FloatSign.binary_round_aux_signed prec emax (xorb false false)
                (Z.pos (m * 7036874417766400)) (e + -46) loc_Exact) as H.
  destruct (binary_round_aux prec emax _ _ _ _) as [s|s| |s m' e']; simpl in *;
    try (rewrite H by lia; reflexivity). reflexivity.
Qed.

Lemma int_of_float_nonneg (f : float) (c : Z) :
  sf_plus_or_nan (Prim2SF f) = true -> int_of_float f = Ok c -> 0 <= c.
Proof.
  unfold int_of_float. destruct (Prim2SF f) as [s|s| |s m e]; try discriminate.
  - intros _ [= <-]. lia.
  - destruct s; [discriminate|]. intros _ Hc.
    assert (Hc' : c = if 0 <=? e then Z.pos m * 2 ^ e else Z.pos m / 2 ^ (- e))
      by congruence.
    subst c. destruct (0 <=? e) eqn:Ee.
    + apply Z.leb_le in Ee. apply Z.mul_nonneg_nonneg; [lia|].
      apply Z.pow_nonneg. lia.
    + apply Z.leb_gt in Ee. apply Z.div_pos; [lia|]. apply Z.pow_pos_nonneg; lia.
Qed.

End FloatSym.

Lemma norm3_sym (a b : vec3) : norm3 a b = norm3 b a.
Proof.
  destruct a as [[ax ay] az], b as [[bx by_] bz]. unfold norm3.
  rewrite (FloatSym.square_sub_swap ax bx), (FloatSym.square_sub_swap ay by_),
    (FloatSym.square_sub_swap az bz).
  reflexivity.
Qed.

Lemma norm2_sym (a b : float * float) : norm2 a b = norm2 b a.
Proof.
  destruct a as [ax ay], b as [bx by_]. unfold norm2.
  rewrite (FloatSym.square_sub_swap ax bx), (FloatSym.square_sub_swap ay by_).
  reflexivity.
Qed.

Lemma norm3_plus_or_nan (a b : vec3) : sf_plus_or_nan (Prim2SF (norm3 a b)) = true.
Proof.
  destruct a as [[ax ay] az], b as [[bx by_] bz]. unfold norm3.
  apply FloatSym.sqrt_plus_or_nan.
  repeat apply FloatSym.add_plus_or_nan; apply FloatSym.mul_square_plus_or_nan.
Qed.

Lemma norm2_plus_or_nan (a b : float * float) :
  sf_plus_or_nan (Prim2SF (norm2 a b)) = true.
Proof.
  destruct a as [ax ay], b as [bx by_]. unfold norm2.
  apply FloatSym.sqrt_plus_or_nan.
  repeat apply FloatSym.add_plus_or_nan; apply FloatSym.mul_square_plus_or_nan.
Qed.

Lemma dist_sym (points : list vec3) (u v : Z) : dist points u v = dist points v u.
Proof. unfold dist. apply norm3_sym. Qed.

(** ** The OR-Tools strategies *)






Section SolverFacts.

Variable IndexToNode : Z -> Z.
Variable SolveWithParameters :
  nat -> (Z -> Z -> result Z) -> result (option (list Z * Z)).



End SolverFacts.


(** ** The cost callbacks *)

Lemma callback_body_sym {A : Type} (l : list A) (f : A -> A -> float) (u v : Z) :
  (forall a b, f a b = f b a) ->
  (a <- py_index l u ;; b <- py_index l v ;; int_of_float (f a b * 100)%float) =
  (a <- py_index l v ;; b <- py_index l u ;; int_of_float (f a b * 100)%float).
Proof.
  intros Hf.
  destruct (py_index l u) as [a|e] eqn:Eu; destruct (py_index l v) as [b|e'] eqn:Ev;
    simpl; try rewrite Hf; try reflexivity.
  apply py_index_raises in Eu. apply py_index_raises in Ev. subst. reflexivity.
Qed.

(** X2: the cost that either callback gives from a first to a second index
    is the cost from the second to the first, as a number or as the
    exception raised: the cost matrix handed to the solver is symmetric. *)
Theorem distance_callback_symmetric (IndexToNode : Z -> Z) (locations : list vec3)
    (locations_2d : list (float * float)) (from_index to_index : Z) :
  distance_callback IndexToNode locations from_index to_index =
    distance_callback IndexToNode locations to_index from_index /\
  distance_callback_xy IndexToNode locations_2d from_index to_index =
    distance_callback_xy IndexToNode locations_2d to_index from_index.
Proof.
  unfold distance_callback, distance_callback_xy. split.
  - apply (callback_body_sym locations norm3). apply norm3_sym.
  - apply (callback_body_sym locations_2d norm2). apply norm2_sym.
Qed.

(** X3: a cost that either callback returns is never negative. *)
Theorem distance_callback_nonnegative (IndexToNode : Z -> Z) (locations : list vec3)
    (locations_2d : list (float * float)) (from_index to_index : Z) (c : Z) :
  distance_callback IndexToNode locations from_index to_index = Ok c \/
  distance_callback_xy IndexToNode locations_2d from_index to_index = Ok c ->
  0 <= c.
Proof.
  unfold distance_callback, distance_callback_xy. intros [H|H].
  - apply bind_ok in H. destruct H as [a [_ H]].
    apply bind_ok in H. destruct H as [b [_ H]].
    apply (FloatSym.int_of_float_nonneg _ c) in H; [exact H|].
    apply FloatSym.mul_100_plus_or_nan, norm3_plus_or_nan.
  - apply bind_ok in H. destruct H as [a [_ H]].
    apply bind_ok in H. destruct H as [b [_ H]].
    apply (FloatSym.int_of_float_nonneg _ c) in H; [exact H|].
    apply FloatSym.mul_100_plus_or_nan, norm2_plus_or_nan.
Qed.

(** The side of the square costs 1000. *)
Lemma distance_callback_nonnegative_witness :
  (distance_callback (fun i => i) (points_of square) 1 2 = Ok 1000 \/
   distance_callback_xy (fun i => i) (locations_2d_of square) 1 2 = Ok 1000) /\
  0 <= 1000.
Proof.
  assert (H : distance_callback (fun i => i) (points_of square) 1 2 = Ok 1000 \/
              distance_callback_xy (fun i => i) (locations_2d_of square) 1 2 = Ok 1000)
    by (left; vm_compute; reflexivity).
  split; [exact H|].
  exact (distance_callback_nonnegative (fun i => i) (points_of square)
           (locations_2d_of square) 1 2 1000 H).
Defined.

Lemma norm3_self_zero (a : vec3) :
  (let '(ax, ay, az) := a in
   is_finite ax = true /\ is_finite ay = true /\ is_finite az = true) ->
  norm3 a a = 0%float.
Proof.
  destruct a as [[ax ay] az]. intros [Hx [Hy Hz]]. unfold norm3.
  rewrite !FloatSym.square_self_zero by assumption. reflexivity.
Qed.

Lemma norm2_self_zero (a : float * float) :
  (let '(ax, ay) := a in is_finite ax = true /\ is_finite ay = true) ->
  norm2 a a = 0%float.
Proof.
  destruct a as [ax ay]. intros [Hx Hy]. unfold norm2.
  rewrite !FloatSym.square_self_zero by assumption. reflexivity.
Qed.

Lemma location_2d_finite (cs : list coordinate) (i : nat) :
  coordinates_finite cs ->
  let '(x, y) := nth i (locations_2d_of cs) (0, 0)%float in
  is_finite x = true /\ is_finite y = true.
Proof.
  intros HF. unfold locations_2d_of. revert i.
  induction HF as [|c cs Hc HF IH]; intros [|i]; simpl;
    try (split; reflexivity).
  - tauto.
  - apply IH.
Qed.

(** X4: for points with finite coordinates, the cost from a point to itself
    is 0 in both callbacks. *)
Theorem distance_callback_diagonal (IndexToNode : Z -> Z) (cs : list coordinate)
    (index : Z) :
  coordinates_finite cs ->
  in_range (length cs) (IndexToNode index) ->
  distance_callback IndexToNode (points_of cs) index index = Ok 0 /\
  distance_callback_xy IndexToNode (locations_2d_of cs) index index = Ok 0.
Proof.
  intros HF Hi. unfold distance_callback, distance_callback_xy.
  assert (Hlen : length (locations_2d_of cs) = length cs) by apply length_map.
  rewrite (py_index_point (points_of cs) (IndexToNode index))
    by (rewrite points_of_length; exact Hi).
  rewrite (py_index_front (locations_2d_of cs) (IndexToNode index) (0, 0)%float)
    by (rewrite Hlen; exact Hi).
  cbn [bind]. split.
  - rewrite (norm3_self_zero _ (point_at_finite cs (IndexToNode index) HF)). reflexivity.
  - rewrite (norm2_self_zero _ (location_2d_finite cs _ HF)). reflexivity.
Qed.

(** The third corner of the square. *)
Lemma distance_callback_diagonal_witness :
  coordinates_finite square /\
  in_range (length square) 2 /\
  distance_callback (fun i => i) (points_of square) 2 2 = Ok 0.
Proof.
  assert (Hi : in_range (length square) 2) by (unfold in_range; simpl; lia).
  split; [exact square_finite|]. split; [exact Hi|].
  exact (proj1 (distance_callback_diagonal (fun i => i) square 2 square_finite Hi)).
Defined.

(** ** What the strategies never touch *)

Lemma extends_refl (w : window) : extends_window w w.
Proof. split; [reflexivity|]. exists []. rewrite app_nil_r. reflexivity. Qed.

Lemma extends_trans (w1 w2 w3 : window) :
  extends_window w1 w2 -> extends_window w2 w3 -> extends_window w1 w3.
Proof.
  intros [Hc [e1 H1]] [Hc' [e2 H2]]. split; [congruence|].
  exists (e1 ++ e2). rewrite H2, H1, app_assoc. reflexivity.
Qed.

Lemma extends_log (w : window) (m : log_entry) : extends_window w (log w m).
Proof. split; [reflexivity|]. exists [m]. reflexivity. Qed.

Lemma extends_set_path (w : window) (p : list Z) :
  extends_window w (set_optimized_path w p).
Proof. split; [reflexivity|]. exists []. simpl. rewrite app_nil_r. reflexivity. Qed.

Lemma extends_log_result (w : window) (path : list Z) (d : float) (name : string) :
  extends_window w (_log_optimization_result w path d name).
Proof.
  unfold _log_optimization_result.
  eapply extends_trans; [apply extends_log | apply extends_log].
Qed.

Lemma extends_try_except (prefix : string) (body : window -> window * result unit)
    (w : window) :
  extends_window w (fst (body w)) -> extends_window w (try_except prefix body w).
Proof.
  unfold try_except. destruct (body w) as [w' [u|e]]; simpl; intros H; [exact H|].
  eapply extends_trans; [exact H | apply extends_log].
Qed.

Lemma extends_check (w : window) : extends_window w (snd (_check_coordinates w)).
Proof.
  unfold _check_coordinates. destruct (length (coordinates w) <? 2)%nat; simpl.
  - apply extends_log.
  - apply extends_refl.
Qed.

Lemma extends_nn_finish (path : list Z) (w : window) :
  extends_window w (fst (nn_finish path w)).
Proof.
  unfold nn_finish. destruct (_draw_optimized_path _ _); simpl.
  - destruct (_calculate_distance_3d _ _); simpl.
    + eapply extends_trans; [apply extends_set_path | apply extends_log_result].
    + apply extends_set_path.
  - apply extends_set_path.
Qed.

Lemma extends_sa_finish (st : sa_state) (w : window) :
  extends_window w (fst (sa_finish st w)).
Proof.
  unfold sa_finish. destruct (_draw_optimized_path _ _); simpl.
  - eapply extends_trans; [apply extends_set_path | apply extends_log_result].
  - apply extends_set_path.
Qed.

Lemma extends_nearest_neighbor (w w' : window) :
  optimize_with_nearest_neighbor w = Some w' -> extends_window w w'.
Proof.
  unfold optimize_with_nearest_neighbor.
  pose proof (extends_check w) as Hc.
  destruct (_check_coordinates w) as [ok w1]. simpl in Hc.
  destruct ok; simpl; [|intros [= <-]; exact Hc].
  destruct (nearest_neighbor_path _) as [r|]; [|discriminate]. intros [= <-].
  eapply extends_trans; [exact Hc|].
  eapply extends_trans; [apply extends_log|].
  apply extends_try_except. destruct r; [apply extends_nn_finish | apply extends_refl].
Qed.

Lemma extends_simulated_annealing (exp : float -> float) (rs : random_source)
    (fuel : nat) (w w' : window) :
  optimize_with_simulated_annealing exp rs fuel w = Some w' -> extends_window w w'.
Proof.
  unfold optimize_with_simulated_annealing.
  pose proof (extends_check w) as Hc.
  destruct (_check_coordinates w) as [ok w1]. simpl in Hc.
  destruct ok; simpl; [|intros [= <-]; exact Hc].
  destruct (simulated_annealing_search _ _ _ _) as [r|]; [|discriminate]. intros [= <-].
  eapply extends_trans; [exact Hc|].
  eapply extends_trans; [apply extends_log|].
  apply extends_try_except. destruct r; [apply extends_sa_finish | apply extends_refl].
Qed.

Section FrameFacts.

Variable IndexToNode : Z -> Z.
Variable SolveWithParameters :
  nat -> (Z -> Z -> result Z) -> result (option (list Z * Z)).

Lemma extends_solver_body (n : nat) (cb : Z -> Z -> result Z) (name failed : string)
    (w : window) :
  extends_window w (fst (solver_body SolveWithParameters n cb name failed w)).
Proof.
  unfold solver_body. destruct (SolveWithParameters n cb) as [[[path obj]|]|e]; simpl.
  - destruct (_draw_optimized_path _ _); simpl.
    + eapply extends_trans; [apply extends_set_path | apply extends_log_result].
    + apply extends_set_path.
  - apply extends_log.
  - apply extends_refl.
Qed.

Lemma extends_ortools (w : window) :
  extends_window w (optimize_with_ortools IndexToNode SolveWithParameters w).
Proof.
  unfold optimize_with_ortools.
  pose proof (extends_check w) as Hc.
  destruct (_check_coordinates w) as [ok w1]. simpl in Hc.
  destruct ok; simpl; [|exact Hc].
  eapply extends_trans; [exact Hc|].
  eapply extends_trans; [apply extends_log|].
  apply extends_try_except. apply extends_solver_body.
Qed.

Lemma extends_xy_only (w : window) :
  extends_window w (optimize_xy_only IndexToNode SolveWithParameters w).
Proof.
  unfold optimize_xy_only.
  pose proof (extends_check w) as Hc.
  destruct (_check_coordinates w) as [ok w1]. simpl in Hc.
  destruct ok; simpl; [|exact Hc].
  eapply extends_trans; [exact Hc|].
  eapply extends_trans; [apply extends_log|].
  apply extends_try_except. apply extends_solver_body.
Qed.

(** X5: whatever the algorithm text, the solver, [np.exp], the random
    numbers and the stored path are, a call of [run_optimization] that
    returns leaves the points as they were and only adds entries at the end
    of the log: no strategy changes or reorders the points, and none removes
    a log entry. *)
Theorem run_optimization_keeps_points (exp : float -> float) (rs : random_source)
    (fuel : nat) (algorithm : string) (w w' : window) :
  run_optimization IndexToNode SolveWithParameters exp rs fuel algorithm w = Some w' ->
  coordinates w' = coordinates w /\
  exists entries, log_view w' = log_view w ++ entries.
Proof.
  unfold run_optimization.
  pose proof (extends_check w) as Hc.
  destruct (_check_coordinates w) as [ok w1]. simpl in Hc.
  destruct ok; simpl; [|intros [= <-]; exact Hc].
  intros H. apply (extends_trans w w1 w' Hc).
  destruct (String.eqb algorithm _); [injection H as <-; apply extends_xy_only|].
  destruct (String.eqb algorithm _); [injection H as <-; apply extends_ortools|].
  destruct (String.eqb algorithm _); [exact (extends_nearest_neighbor _ _ H)|].
  destruct (String.eqb algorithm _);
    [exact (extends_simulated_annealing _ _ _ _ _ H)|].
  injection H as <-. apply extends_log.
Qed.

(** X6: with at least two points and an algorithm text that is none of the
    four of the combo box, [run_optimization] only logs that the algorithm
    is unknown: no strategy runs and the stored path stays. *)
Theorem unknown_algorithm_logged (exp : float -> float) (rs : random_source)
    (fuel : nat) (algorithm : string) (w : window) :
  (2 <= length (coordinates w))%nat ->
  algorithm <> "平面优化 (计算高效)"%string ->
  algorithm <> "智能优化 (OR-Tools)"%string ->
  algorithm <> "快速优化 (最近邻算)"%string ->
  algorithm <> "全局优化 (模拟退火)"%string ->
  run_optimization IndexToNode SolveWithParameters exp rs fuel algorithm w =
  Some (mkWindow (coordinates w) (optimized_path w)
          (log_view w ++ [LogUnknownAlgorithm algorithm])).
Proof.
  intros Hn H1 H2 H3 H4. unfold run_optimization.
  rewrite (check_coordinates_enough w Hn). cbn [negb].
  apply String.eqb_neq in H1, H2, H3, H4. rewrite H1, H2, H3, H4. reflexivity.
Qed.

End FrameFacts.

(** The nearest-neighbour strategy on the square, chosen by its text. *)
Lemma run_optimization_keeps_points_witness :
  run_optimization (fun i => i) (fun _ _ => Ok None) (fun x => x) fixed_draws 0
    "快速优化 (最近邻算)" square_window =
  Some (mkWindow square [0; 1; 2; 3]
          [LogText "开始最近邻算法优化..."; LogDone "最近邻算法" 30%float;
           LogOrder [1; 2; 3; 4]]) /\
  coordinates (mkWindow square [0; 1; 2; 3]
                 [LogText "开始最近邻算法优化..."; LogDone "最近邻算法" 30%float;
                  LogOrder [1; 2; 3; 4]]) = coordinates square_window.
Proof.
  assert (H : run_optimization (fun i => i) (fun _ _ => Ok None) (fun x => x) fixed_draws 0
                "快速优化 (最近邻算)" square_window =
              Some (mkWindow square [0; 1; 2; 3]
                      [LogText "开始最近邻算法优化..."; LogDone "最近邻算法" 30%float;
                       LogOrder [1; 2; 3; 4]]))
    by (vm_compute; reflexivity).
  split; [exact H|].
  exact (proj1 (run_optimization_keeps_points (fun i => i) (fun _ _ => Ok None)
                  (fun x => x) fixed_draws 0 "快速优化 (最近邻算)" square_window _ H)).
Defined.

(** A text that the combo box does not hold. *)
Lemma unknown_algorithm_logged_witness :
  (2 <= length (coordinates two_points_window))%nat /\
  run_optimization (fun i => i) (fun _ _ => Ok None) (fun x => x) fixed_draws 0
    "2-opt" two_points_window =
  Some (mkWindow two_points [1; 0] [LogUnknownAlgorithm "2-opt"]).
Proof.
  split; [simpl; lia|].
  apply (unknown_algorithm_logged (fun i => i) (fun _ _ => Ok None) (fun x => x)
           fixed_draws 0 "2-opt" two_points_window);
    [simpl; lia | discriminate | discriminate | discriminate | discriminate].
Defined.

(** ** The evaluator, leg by leg *)

Lemma sum_legs_app (points : list vec3) (k : Z) (rest : list Z) :
  forall prev acc,
    sum_legs points prev (rest ++ [k]) acc =
    (d <- sum_legs points prev rest acc ;;
     a <- py_index points k ;;
     b <- py_index points (last rest prev) ;;
     Ok (d + norm3 a b)%float).
Proof.
  induction rest as [|x rest IH]; intros prev acc.
  - simpl. destruct (py_index points k); simpl; [|reflexivity].
    destruct (py_index points prev); reflexivity.
  - change ((x :: rest) ++ [k]) with (x :: (rest ++ [k])).
    rewrite last_cons. cbn [sum_legs].
    destruct (py_index points x) as [a|e]; [|reflexivity]. cbn [bind].
    destruct (py_index points prev) as [b|e]; [|reflexivity]. cbn [bind].
    apply IH.
Qed.

(** X7: going on to one more point adds one leg to the length: for a path
    that is not empty, the evaluator on the path with an index appended
    gives the length of the path plus the distance from its last point to
    the new one, and fails where the path or one of the two look-ups
    fails. *)
Theorem evaluator_append (points : list vec3) (path : list Z) (k : Z) :
  path <> [] ->
  _calculate_distance_3d points (path ++ [k]) =
  (d <- _calculate_distance_3d points path ;;
   a <- py_index points k ;;
   b <- py_index points (last path 0) ;;
   Ok (d + norm3 a b)%float).
Proof.
  destruct path as [|p0 rest]; [congruence|]. intros _.
  change ((p0 :: rest) ++ [k]) with (p0 :: (rest ++ [k])).
  unfold _calculate_distance_3d. rewrite last_cons. apply sum_legs_app.
Qed.

(** Three sides of the square, and the fourth corner after them. *)
Lemma evaluator_append_witness :
  [0; 1; 2] <> [] /\
  _calculate_distance_3d (points_of square) ([0; 1; 2] ++ [3]) = Ok 30%float.
Proof.
  assert (Hne : [0; 1; 2] <> []) by discriminate.
  split; [exact Hne|].
  rewrite (evaluator_append (points_of square) [0; 1; 2] 3 Hne).
  vm_compute. reflexivity.
Defined.

Lemma zero_leb_plus (d : float) :
  sf_plus (Prim2SF d) = true -> (0 <=? d)%float = true.
Proof.
  intros H. rewrite leb_spec.
  change (Prim2SF 0%float) with (S754_zero false).
  destruct (Prim2SF d) as [[|]|[|]| |[|] m e]; try discriminate; reflexivity.
Qed.

Lemma open_length_plus (cs : list coordinate) (path : list Z) :
  coordinates_finite cs -> sf_plus (Prim2SF (open_length (points_of cs) path)) = true.
Proof.
  intros HF. unfold open_length.
  assert (H0 : sf_plus (Prim2SF 0%float) = true) by reflexivity.
  revert H0. generalize 0%float.
  induction (seq 1 (length path - 1)) as [|i l IH]; intros acc Hacc; [exact Hacc|].
  simpl. apply IH. apply FloatSign.add_plus; [exact Hacc|].
  unfold leg_length. apply dist_plus. exact HF.
Qed.

(** X8: for points with finite coordinates and a path of indices in range,
    the evaluator returns a length, and the length is a number that is not
    negative (it can be plus infinity). *)
Theorem evaluator_length_nonnegative (cs : list coordinate) (path : list Z) :
  coordinates_finite cs ->
  Forall (in_range (length cs)) path ->
  exists d,
    _calculate_distance_3d (points_of cs) path = Ok d /\
    is_nan d = false /\ (0 <=? d)%float = true.
Proof.
  intros HF Hp. exists (open_length (points_of cs) path).
  split; [apply calculate_distance_3d_open; rewrite points_of_length; exact Hp|].
  pose proof (open_length_plus cs path HF) as H.
  split; [apply FloatSign.plus_not_nan; exact H | apply zero_leb_plus; exact H].
Qed.

(** A path on the square that visits a corner twice. *)
Lemma evaluator_length_nonnegative_witness :
  coordinates_finite square /\
  Forall (in_range (length square)) [3; 1; 3] /\
  exists d,
    _calculate_distance_3d (points_of square) [3; 1; 3] = Ok d /\
    is_nan d = false /\ (0 <=? d)%float = true.
Proof.
  assert (Hp : Forall (in_range (length square)) [3; 1; 3])
    by (repeat constructor; unfold in_range; simpl; lia).
  split; [exact square_finite|]. split; [exact Hp|].
  exact (evaluator_length_nonnegative square [3; 1; 3] square_finite Hp).
Defined.

(** ** The nearest-neighbour strategy logs the open length *)

Lemma nearest_neighbor_result (w : window) (path : list Z) :
  (2 <= length (coordinates w))%nat ->
  nearest_neighbor_path (coordinates w) = Some (Ok path) ->
  Forall (in_range (length (coordinates w))) path ->
  optimize_with_nearest_neighbor w =
  Some (_log_optimization_result
          (set_optimized_path (log w (LogText "开始最近邻算法优化...")) path) path
          (open_length (points_of (coordinates w)) path) "最近邻算法").
Proof.
  intros Hn Hp HF. unfold optimize_with_nearest_neighbor.
  rewrite (check_coordinates_enough w Hn). cbn [negb log coordinates].
  rewrite Hp. unfold try_except, nn_finish.
  rewrite draw_ok by exact HF. cbn [set_optimized_path coordinates].
  rewrite calculate_distance_3d_open by (rewrite points_of_length; exact HF).
  reflexivity.
Qed.

(** X9: with at least two points, the nearest-neighbour strategy stores its
    tour and logs, after its start message, the open length of that tour
    (the sum of the distances between consecutive entries, without a leg
    back to the start) and the tour with its indices counted from 1. *)
Theorem nearest_neighbor_logs_open_length (w : window) :
  (2 <= length (coordinates w))%nat ->
  exists path,
    nearest_neighbor_path (coordinates w) = Some (Ok path) /\
    optimize_with_nearest_neighbor w =
    Some (mkWindow (coordinates w) path
            (log_view w ++
             [LogText "开始最近邻算法优化...";
              LogDone "最近邻算法" (open_length (points_of (coordinates w)) path);
              LogOrder (map (fun i => i + 1) path)])).
Proof.
  intros Hn.
  destruct (nearest_neighbor_path_tour (coordinates w) Hn) as [path [Hp Ht]].
  exists path. split; [exact Hp|].
  rewrite (nearest_neighbor_result w path Hn Hp (is_tour_in_range _ _ Ht)).
  unfold _log_optimization_result, log, set_optimized_path.
  cbn [coordinates optimized_path log_view]. rewrite <- !app_assoc. reflexivity.
Qed.

(** The two points at distance 5. *)
Lemma nearest_neighbor_logs_open_length_witness :
  (2 <= length (coordinates two_points_window))%nat /\
  exists path,
    nearest_neighbor_path (coordinates two_points_window) = Some (Ok path) /\
    optimize_with_nearest_neighbor two_points_window =
    Some (mkWindow (coordinates two_points_window) path
            (log_view two_points_window ++
             [LogText "开始最近邻算法优化...";
              LogDone "最近邻算法"
                (open_length (points_of (coordinates two_points_window)) path);
              LogOrder (map (fun i => i + 1) path)])).
Proof.
  assert (Hn : (2 <= length (coordinates two_points_window))%nat) by (simpl; lia).
  split; [exact Hn|].
  exact (nearest_neighbor_logs_open_length two_points_window Hn).
Defined.

(** ** The 2-opt move, position by position *)

Lemma reverse_slice_length (path : list Z) (i j : nat) :
  (i <= j < length path)%nat -> length (reverse_slice path i j) = length path.
Proof.
  intros H. apply Permutation_length, reverse_slice_permutation. lia.
Qed.

Lemma reverse_slice_nth (path : list Z) (i j k : nat) (d : Z) :
  (i <= j < length path)%nat ->
  nth k (reverse_slice path i j) d =
  if ((i <=? k) && (k <=? j))%nat then nth (i + j - k) path d else nth k path d.
Proof.
  intros [Hij Hj]. unfold reverse_slice.
  assert (Hl1 : length (firstn i path) = i) by (rewrite length_firstn; lia).
  assert (Hl2 : length (rev (firstn (j + 1 - i) (skipn i path))) = (j + 1 - i)%nat)
    by (rewrite length_rev, length_firstn, length_skipn; lia).
  destruct (Nat.leb_spec i k) as [Hik|Hik]; simpl.
  - rewrite app_nth2 by lia. rewrite Hl1.
    destruct (Nat.leb_spec k j) as [Hkj|Hkj].
    + rewrite app_nth1 by lia.
      rewrite rev_nth by (rewrite length_firstn, length_skipn; lia).
      rewrite length_firstn, length_skipn.
      rewrite nth_firstn.
      replace (Nat.min (j + 1 - i) (length path - i)) with (j + 1 - i)%nat by lia.
      destruct (Nat.ltb_spec (j + 1 - i - S (k - i)) (j + 1 - i)) as [_|Hbad]; [|lia].
      rewrite nth_skipn. f_equal. lia.
    + rewrite app_nth2 by lia. rewrite Hl2, nth_skipn. f_equal. lia.
  - rewrite app_nth1 by lia. rewrite nth_firstn.
    destruct (Nat.ltb_spec k i); [reflexivity | lia].
Qed.

(** X10: for positions [i <= j] inside the path, the 2-opt move keeps the
    length of the path and every entry outside [i..j], puts at a position
    [k] of [i..j] the entry that was at [i + j - k], and is undone by
    making it again. *)
Theorem reverse_slice_positions (path : list Z) (i j : nat) :
  (i <= j < length path)%nat ->
  length (reverse_slice path i j) = length path /\
  (forall k d,
     nth k (reverse_slice path i j) d =
     if ((i <=? k) && (k <=? j))%nat then nth (i + j - k) path d else nth k path d) /\
  reverse_slice (reverse_slice path i j) i j = path.
Proof.
  intros H. split; [apply reverse_slice_length; exact H|].
  split; [intros k d; apply reverse_slice_nth; exact H|].
  assert (Hlen : length (reverse_slice path i j) = length path)
    by (apply reverse_slice_length; exact H).
  apply (nth_ext _ _ 0 0).
  - rewrite reverse_slice_length; rewrite Hlen; [reflexivity | exact H].
  - intros k _. rewrite reverse_slice_nth by (rewrite Hlen; exact H).
    destruct ((i <=? k) && (k <=? j))%nat eqn:E.
    + apply andb_true_iff in E. destruct E as [E1 E2].
      apply Nat.leb_le in E1, E2.
      rewrite reverse_slice_nth by exact H.
      destruct (Nat.leb_spec i (i + j - k)); [|lia].
      destruct (Nat.leb_spec (i + j - k) j); [|lia].
      simpl. f_equal. lia.
    + rewrite reverse_slice_nth by exact H. rewrite E. reflexivity.
Qed.

(** The middle of a path of five. *)
Lemma reverse_slice_positions_witness :
  (1 <= 3 < length [10; 11; 12; 13; 14])%nat /\
  reverse_slice [10; 11; 12; 13; 14] 1 3 = [10; 13; 12; 11; 14] /\
  reverse_slice (reverse_slice [10; 11; 12; 13; 14] 1 3) 1 3 = [10; 11; 12; 13; 14].
Proof.
  assert (H : (1 <= 3 < length [10; 11; 12; 13; 14])%nat) by (simpl; lia).
  split; [exact H|]. split; [reflexivity|].
  exact (proj2 (proj2 (reverse_slice_positions [10; 11; 12; 13; 14] 1 3 H))).
Defined.

(** ** The annealing result against the input order *)

Lemma sa_run_best_not_above (exp : float -> float) (rs : random_source)
    (points : list vec3) (fuel : nat) :
  (1 <= length points)%nat ->
  (180 <= fuel)%nat ->
  exists st0 st,
    sa_init points = Ok st0 /\
    simulated_annealing_search exp rs points fuel = Some (Ok st) /\
    sa_invariant points st /\
    best_not_above st0 st.
Proof.
  intros Hpts Hfuel.
  destruct (sa_run_facts exp rs points Hpts fuel 180 (cooling_rounds_enough fuel Hfuel))
    as [st0 [st [Hinit [Hs [Hlast [Hhd [_ [_ [Hchain Hall]]]]]]]]].
  exists st0, st. split; [exact Hinit|]. split; [exact Hs|].
  assert (Hin : In st (sa_trace exp rs points fuel)).
  { rewrite <- Hlast. apply last_In. intros E. rewrite E in Hhd. discriminate. }
  split; [rewrite Forall_forall in Hall; exact (Hall st Hin)|].
  assert (Hsteps : Sorted best_not_above (sa_trace exp rs points fuel)).
  { apply (chain_weaken (sa_iterates exp rs points) _ (sa_invariant points));
      [|exact Hall | exact Hchain].
    intros a b [Hc _] Hab. apply (sa_step_best_not_above points).
    exact (sa_iterates_step exp rs points Hpts a b Hc Hab). }
  apply Sorted_StronglySorted in Hsteps; [|exact best_not_above_trans].
  destruct (sa_trace_start exp rs points fuel st0 Hhd) as [tr Htr].
  rewrite Htr in Hsteps, Hin. apply StronglySorted_inv in Hsteps.
  destruct Hsteps as [_ HF]. destruct Hin as [<-|Hin]; [apply best_not_above_refl|].
  rewrite Forall_forall in HF. exact (HF st Hin).
Qed.

(** X11: with at least two points, for every [np.exp] and all random
    numbers, the cost that the annealing strategy logs for the tour it
    stores is the closed length of the input order [0..n-1] or strictly
    below it: the strategy never returns a tour that costs more than
    leaving the points in their order; for finite coordinates the logged
    cost is less than or equal to that length. *)
Theorem annealing_not_worse_than_input (exp : float -> float) (rs : random_source)
    (fuel : nat) (w : window) :
  (2 <= length (coordinates w))%nat ->
  (180 <= fuel)%nat ->
  exists path cost,
    optimize_with_simulated_annealing exp rs fuel w =
    Some (mkWindow (coordinates w) path
            (log_view w ++ [LogText "开始模拟退火优化..."; LogDone "模拟退火算法" cost;
                            LogOrder (map (fun i => i + 1) path)])) /\
    (cost = closed_length (points_of (coordinates w)) (py_range 0 (length (coordinates w)))
     \/ (cost <? closed_length (points_of (coordinates w))
                   (py_range 0 (length (coordinates w))))%float = true) /\
    (coordinates_finite (coordinates w) ->
     (cost <=? closed_length (points_of (coordinates w))
                 (py_range 0 (length (coordinates w))))%float = true).
Proof.
  intros Hn Hfuel.
  set (points := points_of (coordinates w)).
  assert (Hpts : (1 <= length points)%nat)
    by (unfold points; rewrite points_of_length; lia).
  destruct (sa_run_best_not_above exp rs points fuel Hpts Hfuel)
    as [st0 [st [Hinit [Hs [Hinv Hbest]]]]].
  destruct (sa_init_invariant points Hpts) as [st0' [Hinit' [_ [_ [_ [Hcd [Hbd _]]]]]]].
  rewrite Hinit in Hinit'. injection Hinit' as <-.
  assert (Hc0 : best_distance st0 =
                closed_length points (py_range 0 (length (coordinates w)))).
  { rewrite Hbd, Hcd. unfold points. rewrite points_of_length. reflexivity. }
  destruct Hinv as [_ [Htour _]]. unfold points in Htour.
  rewrite points_of_length in Htour.
  exists (best_path st), (best_distance st). split; [|split].
  - rewrite (annealing_stores exp rs fuel w st Hn Hs Htour).
    unfold _log_optimization_result, log, set_optimized_path.
    cbn [coordinates optimized_path log_view]. rewrite <- !app_assoc. reflexivity.
  - rewrite <- Hc0. exact Hbest.
  - intros HF. rewrite <- Hc0. apply best_not_above_leb; [|exact Hbest].
    rewrite Hc0. apply finite_coordinates_closed_length. exact HF.
Qed.

(** A run on the square. *)
Lemma annealing_not_worse_than_input_witness :
  (2 <= length (coordinates square_window))%nat /\
  (180 <= 180)%nat /\
  exists path cost,
    optimize_with_simulated_annealing (fun x => x) fixed_draws 180 square_window =
    Some (mkWindow (coordinates square_window) path
            (log_view square_window ++
             [LogText "开始模拟退火优化..."; LogDone "模拟退火算法" cost;
              LogOrder (map (fun i => i + 1) path)])) /\
    (cost <=? closed_length (points_of (coordinates square_window))
                (py_range 0 (length (coordinates square_window))))%float = true.
Proof.
  assert (Hn : (2 <= length (coordinates square_window))%nat) by (simpl; lia).
  split; [exact Hn|]. split; [exact (le_n 180)|].
  destruct (annealing_not_worse_than_input (fun x => x) fixed_draws 180 square_window
              Hn (le_n 180)) as [path [cost [H1 [_ H3]]]].
  exists path, cost. split; [exact H1|]. apply H3. exact square_finite.
Defined.

(** ** Two points *)

Lemma add_zero_l (d : float) :
  sf_plus_or_nan (Prim2SF d) = true -> (0 + d)%float = d.
Proof.
  intros H. apply Prim2SF_inj. rewrite add_spec.
  change (Prim2SF 0%float) with (S754_zero false).
  destruct (Prim2SF d) as [[|]|[|]| |[|] m e]; try discriminate; reflexivity.
Qed.

Lemma two_point_tours (path : list Z) :
  is_tour 2 path -> path = [0; 1] \/ path = [1; 0].
Proof.
  intros H. unfold is_tour in H. apply Permutation_sym in H.
  exact (Permutation_length_2_inv H).
Qed.

Lemma closed_length_two (points : list vec3) (path : list Z) :
  is_tour 2 path ->
  closed_length points path = (dist points 1 0 + dist points 1 0)%float.
Proof.
  intros H. destruct (two_point_tours path H) as [-> | ->];
    unfold closed_length, open_length, leg_length; cbn [length Nat.sub seq fold_left nth last].
  - rewrite add_zero_l by apply norm3_plus_or_nan. reflexivity.
  - rewrite (dist_sym points 0 1).
    rewrite add_zero_l by apply norm3_plus_or_nan. reflexivity.
Qed.

Lemma nearest_neighbor_two (c0 c1 : coordinate) :
  nearest_neighbor_path [c0; c1] = Some (Ok [0; 1]).
Proof.
  unfold nearest_neighbor_path. cbn [length py_range Nat.sub seq map nn_loop].
  unfold nn_select.
  change (py_index (points_of [c0; c1]) 0) with (Ok (cx c0, cy c0, cz c0)).
  cbn [bind mapM].
  change (py_index (points_of [c0; c1]) (Z.of_nat 1)) with (Ok (cx c1, cy c1, cz c1)).
  cbn [bind mapM argmin].
  destruct (is_nan _); reflexivity.
Qed.

Lemma sa_two_points_invariant (exp : float -> float) (rs : random_source)
    (points : list vec3) (s s' : sa_state) :
  length points = 2%nat ->
  sa_invariant points s /\ best_path s = [0; 1] /\
    best_distance s = (dist points 1 0 + dist points 1 0)%float ->
  sa_iterates exp rs points s s' ->
  sa_invariant points s' /\ best_path s' = [0; 1] /\
    best_distance s' = (dist points 1 0 + dist points 1 0)%float.
Proof.
  intros Hlen [Hinv [Hbp Hbd]] Hit.
  assert (Hpts : (1 <= length points)%nat) by lia.
  split; [exact (sa_iterates_invariant exp rs points Hpts s s' Hinv Hit)|].
  destruct Hinv as [Hc _].
  destruct (sa_iterates_cases exp rs points Hpts s s' Hc Hit)
    as [_ [[_ [_ [H3 H4]]]|[p [d [c1 [c2 [temp [Hp [Hd [_ ->]]]]]]]]]].
  - rewrite H3, H4. auto.
  - assert (Htp : is_tour (length points) p)
      by (unfold is_tour; rewrite Hp; exact Hc).
    rewrite (calculate_distance_tour points p Hpts Htp) in Hd. injection Hd as <-.
    rewrite Hlen in Htp. rewrite (closed_length_two points p Htp).
    unfold sa_accept. cbn [best_distance]. rewrite Hbd.
    rewrite FloatOrder.ltb_irrefl. cbn. auto.
Qed.

(** X12: for exactly two points, whatever their coordinates, [np.exp] and
    the random numbers are, both strategies store the tour [0, 1]; the
    nearest-neighbour strategy logs the distance [d] between the two points
    (the open length) and the annealing strategy logs [d + d] (the closed
    length, there and back). *)
Theorem two_points_tours (exp : float -> float) (rs : random_source) (fuel : nat)
    (w : window) :
  length (coordinates w) = 2%nat ->
  (180 <= fuel)%nat ->
  optimize_with_nearest_neighbor w =
    Some (mkWindow (coordinates w) [0; 1]
            (log_view w ++
             [LogText "开始最近邻算法优化...";
              LogDone "最近邻算法" (dist (points_of (coordinates w)) 1 0);
              LogOrder [1; 2]])) /\
  optimize_with_simulated_annealing exp rs fuel w =
    Some (mkWindow (coordinates w) [0; 1]
            (log_view w ++
             [LogText "开始模拟退火优化...";
              LogDone "模拟退火算法"
                (dist (points_of (coordinates w)) 1 0
                 + dist (points_of (coordinates w)) 1 0)%float;
              LogOrder [1; 2]])).
Proof.
  intros Hlen Hfuel.
  assert (Hn : (2 <= length (coordinates w))%nat) by lia.
  set (points := points_of (coordinates w)).
  assert (Hplen : length points = 2%nat)
    by (unfold points; rewrite points_of_length; exact Hlen).
  assert (Htour : is_tour 2 [0; 1]) by apply Permutation_refl.
  split.
  - assert (Hp : nearest_neighbor_path (coordinates w) = Some (Ok [0; 1])).
    { destruct (coordinates w) as [|c0 [|c1 [|c2 cs]]]; try discriminate.
      apply nearest_neighbor_two. }
    rewrite (nearest_neighbor_result w [0; 1] Hn Hp)
      by (rewrite Hlen; exact (is_tour_in_range _ _ Htour)).
    unfold _log_optimization_result, log, set_optimized_path.
    cbn [coordinates optimized_path log_view]. rewrite <- !app_assoc.
    unfold open_length, leg_length. cbn [length Nat.sub seq fold_left nth map].
    rewrite add_zero_l by apply norm3_plus_or_nan. reflexivity.
  - assert (Hpts : (1 <= length points)%nat) by lia.
    destruct (sa_run_facts exp rs points Hpts fuel 180 (cooling_rounds_enough fuel Hfuel))
      as [st0 [st [Hinit [Hs [Hlast [Hhd [_ [_ [Hchain _]]]]]]]]].
    destruct (sa_init_invariant points Hpts)
      as [st0' [Hinit' [Hinv0 [_ [Hbp [Hcd [Hbd _]]]]]]].
    rewrite Hinit in Hinit'. injection Hinit' as <-.
    assert (H0 : sa_invariant points st0 /\ best_path st0 = [0; 1] /\
                 best_distance st0 = (dist points 1 0 + dist points 1 0)%float).
    { split; [exact Hinv0|]. rewrite Hbp, Hbd, Hcd, Hplen.
      split; [reflexivity|]. apply closed_length_two. exact Htour. }
    destruct (sa_trace_start exp rs points fuel st0 Hhd) as [tr Htr].
    rewrite Htr in Hchain, Hlast.
    pose proof (chain_invariant (sa_iterates exp rs points) _ tr
                  (fun a b => sa_two_points_invariant exp rs points a b Hplen)
                  st0 H0 Hchain) as Hall.
    assert (Hst : In st (st0 :: tr))
      by (rewrite <- Hlast; apply last_In; discriminate).
    rewrite Forall_forall in Hall. destruct (Hall st Hst) as [_ [Hbest Hcost]].
    assert (Hbt : is_tour (length (coordinates w)) (best_path st))
      by (rewrite Hbest, Hlen; exact Htour).
    rewrite (annealing_stores exp rs fuel w st Hn Hs Hbt).
    unfold _log_optimization_result, log, set_optimized_path.
    cbn [coordinates optimized_path log_view]. rewrite <- !app_assoc.
    rewrite Hbest, Hcost. reflexivity.
Qed.

(** The two points at distance 5: 5 one way, 10 there and back. *)
Lemma two_points_tours_witness :
  length (coordinates two_points_window) = 2%nat /\
  (180 <= 180)%nat /\
  optimize_with_simulated_annealing (fun x => x) fixed_draws 180 two_points_window =
    Some (mkWindow two_points [0; 1]
            [LogText "开始模拟退火优化..."; LogDone "模拟退火算法" 10%float;
             LogOrder [1; 2]]).
Proof.
  split; [reflexivity|]. split; [exact (le_n 180)|].
  exact (proj2 (two_points_tours (fun x => x) fixed_draws 180 two_points_window
                  eq_refl (le_n 180))).
Defined.

(** ** [export_file] *)

Lemma strategy_result_tour (exp : float -> float) (rs : random_source) (fuel : nat)
    (w w' : window) :
  (2 <= length (coordinates w))%nat ->
  (180 <= fuel)%nat ->
  optimize_with_nearest_neighbor w = Some w' \/
  optimize_with_simulated_annealing exp rs fuel w = Some w' ->
  coordinates w' = coordinates w /\
  is_tour (length (coordinates w)) (optimized_path w').
Proof.
  intros Hn Hfuel [H|H].
  - destruct (nearest_neighbor_path_tour (coordinates w) Hn) as [path [Hp Ht]].
    destruct (nearest_neighbor_stores w path Hn Hp (is_tour_in_range _ _ Ht))
      as [w'' [Hw'' [Hop Hc]]].
    rewrite H in Hw''. injection Hw'' as <-. rewrite Hop. auto.
  - assert (Hpts : (1 <= length (points_of (coordinates w)))%nat)
      by (rewrite points_of_length; lia).
    destruct (sa_run_best_not_above exp rs (points_of (coordinates w)) fuel Hpts Hfuel)
      as [st0 [st [_ [Hs [[_ [Hbest _]] _]]]]].
    rewrite points_of_length in Hbest.
    rewrite (annealing_stores exp rs fuel w st Hn Hs Hbest) in H.
    injection H as <-. split; [reflexivity | exact Hbest].
Qed.

Lemma map_nth_seq_from {A : Type} (l : list A) (d : A) :
  forall pre, map (fun i => nth i (pre ++ l) d) (seq (length pre) (length l)) = l.
Proof.
  induction l as [|a l IH]; intros pre; [reflexivity|].
  simpl. rewrite app_nth2, Nat.sub_diag by lia. simpl. f_equal.
  specialize (IH (pre ++ [a])). rewrite <- app_assoc, length_app in IH.
  simpl in IH. rewrite Nat.add_1_r in IH. exact IH.
Qed.

Lemma map_nth_range {A B : Type} (f : A -> B) (l : list A) (d : A) :
  map (fun k => f (nth (Z.to_nat k) l d)) (py_range 0 (length l)) = map f l.
Proof.
  unfold py_range. rewrite Nat.sub_0_r, map_map.
  transitivity (map f (map (fun i => nth i ([] ++ l) d) (seq (length (@nil A)) (length l)))).
  - rewrite map_map. apply map_ext. intros i. rewrite Nat2Z.id. reflexivity.
  - rewrite (map_nth_seq_from l d []). reflexivity.
Qed.

Section ExportFacts.

Variable format_6f : float -> string.
Variable open_for_writing : string -> result unit.
Variable write : string -> result unit.

Lemma write_records_in_range (coords : list coordinate) (d : coordinate)
    (path : list Z) :
  forall written,
    Forall (in_range (length coords)) path ->
    (forall c, In c coords -> write (record_line format_6f c) = Ok tt) ->
    write_records format_6f write coords path written =
    (written ++ map (fun k => record_line format_6f (nth (Z.to_nat k) coords d)) path,
     Ok tt).
Proof.
  induction path as [|k path IH]; intros written HF Hw; simpl.
  - rewrite app_nil_r. reflexivity.
  - inversion HF as [|? ? Hk HF']; subst.
    rewrite (py_index_front coords k d Hk).
    rewrite Hw by (apply nth_In; unfold in_range in Hk; lia).
    rewrite (IH _ HF' Hw), <- app_assoc. reflexivity.
Qed.

Lemma write_records_stops (coords : list coordinate) (d : coordinate)
    (pre post : list Z) (k : Z) :
  forall written,
    Forall (in_range (length coords)) pre ->
    ~ np_valid (length coords) k ->
    (forall c, In c coords -> write (record_line format_6f c) = Ok tt) ->
    write_records format_6f write coords (pre ++ k :: post) written =
    (written ++ map (fun i => record_line format_6f (nth (Z.to_nat i) coords d)) pre,
     Raise IndexError).
Proof.
  induction pre as [|i pre IH]; intros written HF Hk Hw; simpl.
  - rewrite (py_index_invalid coords k Hk), app_nil_r. reflexivity.
  - inversion HF as [|? ? Hi HF']; subst.
    rewrite (py_index_front coords i d Hi).
    rewrite Hw by (apply nth_In; unfold in_range in Hi; lia).
    rewrite (IH _ HF' Hk Hw), <- app_assoc. reflexivity.
Qed.

(** X13: after the nearest-neighbour or the annealing strategy has run on
    at least two points, an export into a file that can be opened and
    written logs its success and writes one line per point: the lines are
    the records of the points in the order of the stored tour, every record
    once. *)
Theorem export_after_optimization (exp : float -> float) (rs : random_source)
    (fuel : nat) (filename : string) (w w' : window) :
  (2 <= length (coordinates w))%nat ->
  (180 <= fuel)%nat ->
  optimize_with_nearest_neighbor w = Some w' \/
  optimize_with_simulated_annealing exp rs fuel w = Some w' ->
  filename <> EmptyString ->
  open_for_writing filename = Ok tt ->
  (forall c, In c (coordinates w) -> write (record_line format_6f c) = Ok tt) ->
  exists lines,
    export_file format_6f open_for_writing write filename w' =
      (log w' (LogText ("成功导出文件: " ++ filename)), Some lines) /\
    length lines = length (coordinates w) /\
    lines = map (fun k => record_line format_6f
                            (nth (Z.to_nat k) (coordinates w) (mkCoordinate 0 0 0 EmptyString)))
              (optimized_path w') /\
    Permutation lines (map (record_line format_6f) (coordinates w)).
Proof.
  intros Hn Hfuel Hrun Hname Hopen Hw.
  destruct (strategy_result_tour exp rs fuel w w' Hn Hfuel Hrun) as [Hc Ht].
  set (d := mkCoordinate 0 0 0 EmptyString).
  set (line := fun k => record_line format_6f (nth (Z.to_nat k) (coordinates w) d)).
  exists (map line (optimized_path w')).
  assert (Hperm : Permutation (map line (optimized_path w'))
                    (map (record_line format_6f) (coordinates w))).
  { rewrite <- (map_nth_range (record_line format_6f) (coordinates w) d).
    apply Permutation_map. exact Ht. }
  split; [|split; [|split; [reflexivity | exact Hperm]]].
  - unfold export_file.
    destruct (optimized_path w') as [|k0 rest] eqn:Ep.
    { exfalso. assert (H1 : (1 <= length (coordinates w))%nat) by lia.
      exact (is_tour_nonempty _ _ H1 Ht eq_refl). }
    destruct filename as [|a s]; [congruence|].
    rewrite Hopen, Hc.
    rewrite (write_records_in_range (coordinates w) d (k0 :: rest) []
               (is_tour_in_range _ _ Ht) Hw).
    reflexivity.
  - rewrite (Permutation_length Hperm), length_map. reflexivity.
Qed.

(** X14: when the stored path runs into an entry that is no index of the
    points (a path kept from a larger set of points), the export stops
    there: the error is logged, and the file, already opened and emptied,
    holds the records of the entries before that one only.  With no stored
    path nothing is opened and only an error is logged. *)
Theorem export_stops_at_bad_index (filename : string) (w : window)
    (pre post : list Z) (k : Z) :
  optimized_path w = pre ++ k :: post ->
  Forall (in_range (length (coordinates w))) pre ->
  ~ np_valid (length (coordinates w)) k ->
  filename <> EmptyString ->
  open_for_writing filename = Ok tt ->
  (forall c, In c (coordinates w) -> write (record_line format_6f c) = Ok tt) ->
  export_file format_6f open_for_writing write filename w =
    (log w (LogError "文件导出失败: " IndexError),
     Some (map (fun i => record_line format_6f
                           (nth (Z.to_nat i) (coordinates w) (mkCoordinate 0 0 0 EmptyString)))
             pre)) /\
  export_file format_6f open_for_writing write filename
    (mkWindow (coordinates w) [] (log_view w)) =
    (mkWindow (coordinates w) [] (log_view w ++ [LogText "错误：请先进行路径优化"]), None).
Proof.
  intros Hp HF Hk Hname Hopen Hw. split; [|reflexivity].
  unfold export_file. rewrite Hp.
  destruct (pre ++ k :: post) as [|k0 rest] eqn:E.
  { destruct pre; discriminate. }
  destruct filename as [|a s]; [congruence|].
  rewrite Hopen, <- E.
  rewrite (write_records_stops (coordinates w) (mkCoordinate 0 0 0 EmptyString)
             pre post k [] HF Hk Hw).
  reflexivity.
Qed.

End ExportFacts.

(** The square after the nearest-neighbour strategy, written to a file. *)
Lemma export_after_optimization_witness :
  (2 <= length (coordinates square_window))%nat /\
  (180 <= 180)%nat /\
  exists w' lines,
    optimize_with_nearest_neighbor square_window = Some w' /\
    export_file (fun _ => "0.000000"%string) (fun _ => Ok tt) (fun _ => Ok tt)
      "out.txt" w' =
      (log w' (LogText ("成功导出文件: " ++ "out.txt")), Some lines) /\
    length lines = 4%nat.
Proof.
  assert (Hn : (2 <= length (coordinates square_window))%nat) by (simpl; lia).
  split; [exact Hn|]. split; [exact (le_n 180)|].
  destruct (nearest_neighbor_path_tour (coordinates square_window) Hn) as [path [Hp Ht]].
  destruct (nearest_neighbor_stores square_window path Hn Hp (is_tour_in_range _ _ Ht))
    as [w' [Hw' _]].
  destruct (export_after_optimization (fun _ => "0.000000"%string) (fun _ => Ok tt)
              (fun _ => Ok tt) (fun x => x) fixed_draws 180 "out.txt"
              square_window w' Hn (le_n 180) (or_introl Hw'))
    as [lines [H1 [H2 _]]]; try reflexivity; try discriminate.
  exists w', lines. auto.
Defined.

(** A path kept from four points, exported with two points. *)
Lemma export_stops_at_bad_index_witness :
  export_file (fun _ => "0.000000"%string) (fun _ => Ok tt) (fun _ => Ok tt) "out.txt"
    (mkWindow two_points [1; 3; 0; 2] []) =
  (mkWindow two_points [1; 3; 0; 2] [LogError "文件导出失败: " IndexError],
   Some ["0.000000,0.000000,0.000000,b" ++ newline])%string.
Proof.
  apply (proj1 (export_stops_at_bad_index (fun _ => "0.000000"%string) (fun _ => Ok tt)
                  (fun _ => Ok tt) "out.txt" (mkWindow two_points [1; 3; 0; 2] [])
                  [1] [0; 2] 3 eq_refl
                  ltac:(repeat constructor; unfold in_range; simpl; lia)
                  ltac:(unfold np_valid; simpl; lia)
                  ltac:(discriminate) eq_refl ltac:(reflexivity))).
Defined.

(** ** [_parse_coordinate_file] and [import_file] *)

Section ImportFacts.

Variable strip : string -> string.
Variable py_float : string -> option float.
Variable py_int : string -> result Z.
Variable format_2f : float -> string.
Variable format_exc : exn -> string.

Lemma parse_line_cases (line_num : nat) (raw : string) (w : window) :
  exists errors,
    parse_line strip py_float line_num raw w =
    mkWindow
      (coordinates w ++ match line_point strip py_float raw with
                        | Some c => [c]
                        | None => []
                        end)
      (optimized_path w) (log_view w ++ errors) /\
    (length (match line_point strip py_float raw with Some c => [c] | None => [] end)
     + length errors <= 1)%nat.
Proof.
  unfold parse_line, line_point. destruct w as [cs op lv].
  cbn [coordinates optimized_path log_view log].
  destruct (strip raw) as [|a s].
  - exists []. rewrite !app_nil_r. split; [reflexivity | simpl; lia].
  - cbv zeta. set (parts := split_on ","%char (String a s)).
    destruct (4 <=? length parts)%nat.
    + destruct (parse_fields strip py_float parts) as [c|].
      * exists []. rewrite app_nil_r. split; [reflexivity | simpl; lia].
      * eexists [_]. rewrite app_nil_r. split; [reflexivity | simpl; lia].
    + exists []. rewrite !app_nil_r. split; [reflexivity | simpl; lia].
Qed.

Lemma parse_lines_result (lines : list string) :
  forall line_num w,
    exists errors,
      parse_lines strip py_float line_num lines w =
      mkWindow (coordinates w ++ parsed_points strip py_float lines) (optimized_path w)
        (log_view w ++ errors) /\
      (length (parsed_points strip py_float lines) + length errors <= length lines)%nat.
Proof.
  induction lines as [|raw lines IH]; intros line_num w.
  - exists []. destruct w. simpl. rewrite !app_nil_r. split; [reflexivity | lia].
  - destruct (parse_line_cases line_num raw w) as [e1 [H1 Hn1]].
    destruct (IH (S line_num) (parse_line strip py_float line_num raw w))
      as [e2 [H2 Hn2]].
    exists (e1 ++ e2). cbn [parse_lines]. rewrite H2, H1.
    cbn [coordinates optimized_path log_view].
    unfold parsed_points in *. cbn [flat_map].
    rewrite <- !app_assoc. split; [reflexivity|].
    rewrite !length_app. simpl length. lia.
Qed.

(** X15: parsing a file replaces the points by the points of its lines, in
    the order of the lines and whatever the points were before; it leaves
    the stored path as it is; it only adds entries to the log; and every
    line gives at most one point or one log entry, so points and new
    entries together are never more than the lines. *)
Theorem parse_file_line_by_line (lines : list string) (failure : option exn)
    (w : window) :
  coordinates (fst (_parse_coordinate_file strip py_float lines failure w)) =
    parsed_points strip py_float lines /\
  optimized_path (fst (_parse_coordinate_file strip py_float lines failure w)) =
    optimized_path w /\
  exists errors,
    log_view (fst (_parse_coordinate_file strip py_float lines failure w)) =
      log_view w ++ errors /\
    (length (parsed_points strip py_float lines) + length errors <= length lines)%nat.
Proof.
  unfold _parse_coordinate_file.
  destruct (parse_lines_result lines 1 (mkWindow [] (optimized_path w) (log_view w)))
    as [errors [H Hn]].
  destruct failure; cbn [fst]; rewrite H; cbn;
    (split; [reflexivity|]; split; [reflexivity|]; exists errors; auto).
Qed.

Lemma parse_file_result (lines : list string) (w : window) :
  coordinates (fst (_parse_coordinate_file strip py_float lines None w)) =
    parsed_points strip py_float lines /\
  optimized_path (fst (_parse_coordinate_file strip py_float lines None w)) =
    optimized_path w.
Proof.
  unfold _parse_coordinate_file.
  destruct (parse_lines_result lines 1 (mkWindow [] (optimized_path w) (log_view w)))
    as [errors [H Hn]].
  cbn [fst]. rewrite H. cbn. auto.
Qed.

Lemma plot_points_result (w : window) :
  coordinates (plot_points w) = firstn MAX_POINTS (coordinates w) /\
  optimized_path (plot_points w) = optimized_path w.
Proof.
  unfold plot_points. destruct (coordinates w) as [|c cs] eqn:E; [auto|].
  destruct (Nat.ltb_spec MAX_POINTS (length (c :: cs))) as [H|H].
  - cbn. rewrite E. auto.
  - rewrite E. split; [|reflexivity]. symmetry. apply firstn_all2. exact H.
Qed.

(** X16: an import that reads its file to the end keeps the first 3000
    points of the file and no more, reports their number in its last log
    entry, and leaves the stored path of the earlier points as it is; the
    list of rows is built before the cut and has a row for every point of
    the file. *)
Theorem import_keeps_at_most_max_points (filename : string) (lines : list string)
    (w : window) (g : gui) :
  filename <> EmptyString ->
  coordinates (fst (import_file strip py_float format_2f format_exc filename lines None w g)) =
    firstn 3000 (parsed_points strip py_float lines) /\
  (length (coordinates
             (fst (import_file strip py_float format_2f format_exc filename lines None w g)))
   <= 3000)%nat /\
  optimized_path
    (fst (import_file strip py_float format_2f format_exc filename lines None w g)) =
    optimized_path w /\
  list_coords (snd (import_file strip py_float format_2f format_exc filename lines None w g)) =
    coord_items format_2f 0 (parsed_points strip py_float lines) /\
  last (log_view
          (fst (import_file strip py_float format_2f format_exc filename lines None w g)))
    (LogText EmptyString) =
    LogText ("成功导入文件: " ++ filename ++ "，共"
             ++ str_nat (Nat.min 3000 (length (parsed_points strip py_float lines)))
             ++ "个坐标点").
Proof.
  intros Hname. unfold import_file.
  destruct filename as [|a s]; [congruence|].
  destruct (parse_file_result lines w) as [Hc Hp].
  unfold _parse_coordinate_file in *. cbn [fst snd] in *.
  set (w1 := parse_lines strip py_float 1 lines
               (mkWindow [] (optimized_path w) (log_view w))) in *.
  destruct (plot_points_result w1) as [Hc2 Hp2].
  cbn [fst snd log coordinates optimized_path log_view update_coord_list list_coords].
  rewrite Hc2, Hp2, Hc, Hp.
  split; [reflexivity|]. split; [rewrite length_firstn; apply Nat.le_min_l|].
  split; [reflexivity|]. split; [reflexivity|].
  rewrite last_last, length_firstn. reflexivity.
Qed.

End ImportFacts.

(** A file name and no lines. *)
Lemma import_keeps_at_most_max_points_witness :
  "points.txt"%string <> EmptyString /\
  coordinates
    (fst (import_file (fun s => s) (fun _ => None) (fun _ => "0.00"%string)
            (fun _ => "Traceback"%string) "points.txt" [] None square_window
            (mkGui [] true None None false))) =
  firstn 3000 (parsed_points (fun s => s) (fun _ => None) []).
Proof.
  split; [discriminate|].
  apply (import_keeps_at_most_max_points (fun s => s) (fun _ => None)
           (fun _ => "0.00"%string) (fun _ => "Traceback"%string) "points.txt" []
           square_window (mkGui [] true None None false)).
  discriminate.
Defined.

(** ** The rows of the list and [on_coord_selected] *)

Lemma digits_no_bracket (d : uint) :
  forall_chars (fun a => a <> "]"%char /\ a <> "["%char) (NilEmpty.string_of_uint d).
Proof.
  induction d; simpl; auto; (split; [split; discriminate | assumption]).
Qed.

Lemma forall_chars_impl (P Q : ascii -> Prop) (s : string) :
  (forall a, P a -> Q a) -> forall_chars P s -> forall_chars Q s.
Proof.
  intros H. induction s as [|a s IH]; simpl; [auto|]. intros [Ha Hs]. auto.
Qed.

Lemma split_on_hd (sep : ascii) (p q : string) :
  forall_chars (fun a => a <> sep) p ->
  hd EmptyString (split_on sep (p ++ String sep q)) = p.
Proof.
  induction p as [|a p IH]; simpl.
  - intros _. rewrite Ascii.eqb_refl. reflexivity.
  - intros [Ha Hp]. apply Ascii.eqb_neq in Ha. rewrite Ha.
    specialize (IH Hp). destruct (split_on sep (p ++ String sep q)); simpl in *;
      rewrite IH; reflexivity.
Qed.

Lemma rstrip_char_none (c : ascii) (s : string) :
  forall_chars (fun a => a <> c) s -> rstrip_char c s = s.
Proof.
  induction s as [|a s IH]; simpl; [reflexivity|]. intros [Ha Hs].
  rewrite (IH Hs). apply Ascii.eqb_neq in Ha. rewrite Ha. destruct s; reflexivity.
Qed.

Lemma lstrip_char_none (c : ascii) (s : string) :
  forall_chars (fun a => a <> c) s -> lstrip_char c s = s.
Proof.
  destruct s as [|a s]; simpl; [reflexivity|]. intros [Ha _].
  apply Ascii.eqb_neq in Ha. rewrite Ha. reflexivity.
Qed.

Lemma coord_items_nth (format_2f : float -> string) (cs : list coordinate) :
  forall idx r d,
    (r < length cs)%nat ->
    nth r (coord_items format_2f idx cs) EmptyString =
    coord_item format_2f (idx + r) (nth r cs d).
Proof.
  induction cs as [|c cs IH]; intros idx r d Hr; [simpl in Hr; lia|].
  destruct r as [|r]; simpl.
  - rewrite Nat.add_0_r. reflexivity.
  - rewrite (IH (S idx) r d) by (simpl in Hr; lia). f_equal. lia.
Qed.

Section SelectionFacts.

Variable py_int : string -> result Z.
Variable format_2f : float -> string.

Lemma row_index (r : nat) (c : coordinate) :
  strip_char "["%char (hd EmptyString (split_on "]"%char (coord_item format_2f r c))) =
  str_nat (r + 1).
Proof.
  unfold coord_item, str_nat.
  pose proof (digits_no_bracket (Nat.to_uint (r + 1))) as Hd.
  set (digits := NilEmpty.string_of_uint (Nat.to_uint (r + 1))) in *.
  set (q := (" " ++ format_2f (cx c) ++ ", " ++ format_2f (cy c) ++ ", "
             ++ format_2f (cz c) ++ " - " ++ note c)%string).
  change (strip_char "["%char
            (hd EmptyString
               (split_on "]"%char (String "["%char digits ++ String "]"%char q))) = digits).
  rewrite (split_on_hd "]"%char (String "["%char digits)).
  - unfold strip_char. cbn [lstrip_char]. rewrite Ascii.eqb_refl.
    rewrite lstrip_char_none, rstrip_char_none; [reflexivity | |];
      (eapply forall_chars_impl; [|exact Hd]; intros a [_ H]; exact H).
  - simpl. split; [discriminate|].
    eapply forall_chars_impl; [|exact Hd]. intros a [H _]. exact H.
Qed.

(** X17: the row that [update_coord_list] writes for the point at position
    [r] is read back by [on_coord_selected] as the index [r], whatever the
    coordinates and the note of the point are: with points loaded and the
    markers shown, selecting the row of a point that is there highlights
    that point and starts the blinking; selecting a row beyond the points
    (a row left from before the cut to 3000 points) sets the index and then
    fails with [IndexError], with no highlight. *)
Theorem selected_row_is_point (w : window) (g : gui) (r : nat) (c : coordinate) :
  (forall n, py_int (str_nat n) = Ok (Z.of_nat n)) ->
  coordinates w <> [] ->
  chk_markers g = true ->
  on_coord_selected py_int (Some (coord_item format_2f r c)) w g =
  if (r <? length (coordinates w))%nat then
    (mkGui (list_coords g) true (Some (Z.of_nat r))
       (Some (point_at (points_of (coordinates w)) (Z.of_nat r))) true, Ok tt)
  else
    (mkGui (list_coords g) true (Some (Z.of_nat r)) None false, Raise IndexError).
Proof.
  intros Hint Hcs Hchk. unfold on_coord_selected.
  destruct (coordinates w) as [|c0 cs] eqn:E; [congruence|]. rewrite <- E.
  rewrite Hchk. cbn [negb chk_markers list_coords].
  rewrite row_index, Hint.
  replace (Z.of_nat (r + 1) - 1) with (Z.of_nat r) by lia.
  destruct (Nat.ltb_spec r (length (coordinates w))) as [Hr|Hr].
  - rewrite (py_index_front (coordinates w) (Z.of_nat r) (mkCoordinate 0 0 0 EmptyString))
      by (unfold in_range; lia).
    rewrite Nat2Z.id. unfold point_at, points_of. rewrite Nat2Z.id.
    rewrite (nth_indep _ (0%float, 0%float, 0%float)
               ((fun c => (cx c, cy c, cz c)) (mkCoordinate 0 0 0 EmptyString)))
      by (rewrite length_map; exact Hr).
    rewrite (map_nth (fun c => (cx c, cy c, cz c))). reflexivity.
  - rewrite py_index_invalid by (unfold np_valid; lia). reflexivity.
Qed.

End SelectionFacts.

Lemma decimal_int_str (n : nat) : decimal_int (str_nat n) = Ok (Z.of_nat n).
Proof.
  unfold decimal_int, str_nat.
  destruct (NilEmpty.string_of_uint (Nat.to_uint n)) as [|a s] eqn:E.
  - exfalso. pose proof (DecimalNat.Unsigned.of_to n) as H.
    destruct (Nat.to_uint n) eqn:En; try discriminate.
    simpl in H. subst n. discriminate.
  - unfold NilZero.uint_of_string. rewrite <- E.
    rewrite NilEmpty.usu, DecimalNat.Unsigned.of_to. reflexivity.
Defined.

(** The third row of the list of the square. *)
Lemma selected_row_is_point_witness :
  coordinates square_window <> [] /\
  on_coord_selected decimal_int
    (Some (nth 2 (list_coords (update_coord_list (fun _ => "0.00"%string) square_window
                                 (mkGui [] true None None false))) EmptyString))
    square_window (mkGui [] true None None false) =
  (mkGui [] true (Some 2) (Some (10, 10, 0)%float) true, Ok tt).
Proof.
  split; [discriminate|].
  exact (selected_row_is_point decimal_int (fun _ => "0.00"%string) square_window
           (mkGui [] true None None false) 2 (mkCoordinate 10 10 0 "p3")
           decimal_int_str ltac:(discriminate) eq_refl).
Defined.

(** ** A failed import, then an export *)

Section ImportExportFacts.

Variable strip : string -> string.
Variable py_float : string -> option float.
Variable format_2f : float -> string.
Variable format_exc : exn -> string.
Variable format_6f : float -> string.
Variable open_for_writing : string -> result unit.
Variable write : string -> result unit.

(** X18: an import whose file cannot be opened leaves no points but keeps
    the path stored for the earlier points; an export after it, into a file
    that can be opened, empties that file, writes nothing and logs an
    [IndexError]. *)
Theorem failed_import_then_export (filename target : string) (e : exn) (w : window)
    (g : gui) :
  filename <> EmptyString ->
  target <> EmptyString ->
  open_for_writing target = Ok tt ->
  optimized_path w <> [] ->
  fst (import_file strip py_float format_2f format_exc filename [] (Some e) w g) =
    mkWindow [] (optimized_path w)
      (log_view w ++ [LogError "文件导入失败: " e; LogText (format_exc e)]) /\
  export_file format_6f open_for_writing write target
    (fst (import_file strip py_float format_2f format_exc filename [] (Some e) w g)) =
    (mkWindow [] (optimized_path w)
       (log_view w ++ [LogError "文件导入失败: " e; LogText (format_exc e);
                       LogError "文件导出失败: " IndexError]),
     Some []).
Proof.
  intros Hname Htarget Hopen Hpath.
  assert (Himp : fst (import_file strip py_float format_2f format_exc filename []
                        (Some e) w g) =
                 mkWindow [] (optimized_path w)
                   (log_view w ++ [LogError "文件导入失败: " e; LogText (format_exc e)])).
  { unfold import_file. destruct filename as [|a s]; [congruence|].
    unfold _parse_coordinate_file, log. cbn. rewrite <- app_assoc. reflexivity. }
  split; [exact Himp|]. rewrite Himp. unfold export_file.
  cbn [optimized_path coordinates].
  destruct (optimized_path w) as [|k rest]; [congruence|].
  destruct target as [|a s]; [congruence|]. rewrite Hopen.
  cbn [write_records]. rewrite py_index_invalid by (unfold np_valid; simpl; lia).
  unfold log. cbn. rewrite <- !app_assoc. reflexivity.
Qed.

End ImportExportFacts.

(** The square with its tour stored, and a file that is not there. *)
Lemma failed_import_then_export_witness :
  fst (import_file (fun s => s) (fun _ => None) (fun _ => "0.00"%string)
         (fun _ => "Traceback"%string) "gone.txt" [] (Some SolverError)
         (mkWindow square [0; 1; 2; 3] []) (mkGui [] true None None false)) =
  mkWindow [] [0; 1; 2; 3]
    [LogError "文件导入失败: " SolverError; LogText "Traceback"].
Proof.
  apply (proj1 (failed_import_then_export (fun s => s) (fun _ => None)
                  (fun _ => "0.00"%string) (fun _ => "Traceback"%string)
                  (fun _ => "0.000000"%string) (fun _ => Ok tt) (fun _ => Ok tt)
                  "gone.txt" "out.txt" SolverError (mkWindow square [0; 1; 2; 3] [])
                  (mkGui [] true None None false)
                  ltac:(discriminate) ltac:(discriminate) eq_refl ltac:(discriminate))).
Defined.

(** ** The angles of the 3D view *)

Lemma clamp_elevation_bounds (e : float) :
  elevation_in_bounds (clamp_elevation e) = true.
Proof.
  unfold clamp_elevation, elevation_in_bounds.
  destruct (e <? 90)%float eqn:E1.
  - destruct (-90 <? e)%float eqn:E2.
    + rewrite (FloatOrder.ltb_leb _ _ E1), (FloatOrder.ltb_leb _ _ E2). reflexivity.
    + reflexivity.
  - reflexivity.
Qed.

Section MouseFacts.

Variable C : Type.
Variable pan : float -> float -> Z -> Z -> C -> C.

Lemma mouse_move_elevation (x y : Z) (buttons : mouse_buttons) (v : view C) :
  (elevation (mouseMoveEvent C pan x y buttons v) = elevation v /\
   (_rotation_locked v = true \/ buttons <> RightButton \/
    _last_mouse_pos v = None \/ _last_mouse_pos v = Some (x, y)) \/
   elevation_in_bounds (elevation (mouseMoveEvent C pan x y buttons v)) = true) /\
  _rotation_locked (mouseMoveEvent C pan x y buttons v) = _rotation_locked v /\
  distance (mouseMoveEvent C pan x y buttons v) = distance v.
Proof.
  unfold mouseMoveEvent.
  destruct (_last_mouse_pos v) as [[lx ly]|] eqn:El.
  2:{ split; [left; split; [reflexivity|]; auto|]. auto. }
  destruct ((Z.abs (x - lx) <? 1) && (Z.abs (y - ly) <? 1)) eqn:Ed.
  { split; [|auto]. left. split; [reflexivity|]. right. right. right.
    apply andb_true_iff in Ed. destruct Ed as [Ex Ey].
    apply Z.ltb_lt in Ex, Ey. f_equal. f_equal; lia. }
  destruct buttons; cbn.
  - split; [|auto]. left. split; [reflexivity|]. right. left. discriminate.
  - destruct (_rotation_locked v) eqn:Elock; cbn.
    + split; [|auto]. left. split; [reflexivity|]. left. reflexivity.
    + split; [|auto]. right. apply clamp_elevation_bounds.
  - split; [|auto]. left. split; [reflexivity|]. right. left. discriminate.
Qed.

Lemma mouse_moves_facts (events : list (Z * Z * mouse_buttons)) (v : view C) :
  (elevation_in_bounds (elevation v) = true ->
   elevation_in_bounds (elevation (mouse_moves C pan events v)) = true) /\
  distance (mouse_moves C pan events v) = distance v /\
  _rotation_locked (mouse_moves C pan events v) = _rotation_locked v /\
  (_rotation_locked v = true ->
   azimuth (mouse_moves C pan events v) = azimuth v /\
   elevation (mouse_moves C pan events v) = elevation v).
Proof.
  revert v. induction events as [|[[x y] b] events IH]; intros v.
  - cbn. auto.
  - cbn [mouse_moves].
    destruct (mouse_move_elevation x y b v) as [He [Hl Hd]].
    destruct (IH (mouseMoveEvent C pan x y b v)) as [H1 [H2 [H3 H4]]].
    split.
    { intros Hb. apply H1.
      destruct He as [[He _]|He]; [rewrite He; exact Hb | exact He]. }
    split; [congruence|]. split; [congruence|].
    intros Hlock. rewrite Hl in H4. destruct (H4 Hlock) as [Ha He'].
    rewrite Ha, He'. unfold mouseMoveEvent.
    destruct (_last_mouse_pos v) as [[lx ly]|]; [|auto].
    destruct (_ && _); [auto|]. rewrite Hlock. destruct b; cbn; auto.
Qed.

(** X19: dragging the mouse over the 3D view never takes the elevation out
    of the range from -90 to 90 degrees: after any sequence of moves, with
    any buttons, the elevation of a view that started in that range is in
    it; the moves never change the viewing distance or the rotation lock;
    and while the rotation is locked they change neither azimuth nor
    elevation. *)
Theorem mouse_moves_keep_elevation (events : list (Z * Z * mouse_buttons)) (v : view C) :
  elevation_in_bounds (elevation v) = true ->
  elevation_in_bounds (elevation (mouse_moves C pan events v)) = true /\
  distance (mouse_moves C pan events v) = distance v /\
  _rotation_locked (mouse_moves C pan events v) = _rotation_locked v /\
  (_rotation_locked v = true ->
   azimuth (mouse_moves C pan events v) = azimuth v /\
   elevation (mouse_moves C pan events v) = elevation v).
Proof.
  intros Hb. destruct (mouse_moves_facts events v) as [H1 [H2 [H3 H4]]]. auto.
Qed.

(** X20: the rotation lock works as a switch.  Pressed on an unlocked view
    it logs that the lock is on, and no drag after it, from any pressed
    position, turns the view; pressed again it gives the view back as it
    was and logs that the lock is off. *)
Theorem lock_rotation_switch (events : list (Z * Z * mouse_buttons)) (x y : Z)
    (v : view C) (w : window) :
  _rotation_locked v = false ->
  azimuth (mouse_moves C pan events (mousePressEvent C x y (fst (lock_rotation C v w))))
    = azimuth v /\
  elevation (mouse_moves C pan events (mousePressEvent C x y (fst (lock_rotation C v w))))
    = elevation v /\
  snd (lock_rotation C v w) = log w (LogText "旋转锁定已启用") /\
  lock_rotation C (fst (lock_rotation C v w)) (snd (lock_rotation C v w)) =
    (v, log (log w (LogText "旋转锁定已启用")) (LogText "旋转锁定已禁用")).
Proof.
  intros Hlock. unfold lock_rotation at 1 2 3 4 5. rewrite Hlock. cbn [fst snd].
  set (v1 := mkView true _ _ _ _ _).
  destruct (mouse_moves_facts events (mousePressEvent C x y v1)) as [_ [_ [_ H4]]].
  destruct (H4 eq_refl) as [Ha He]. rewrite Ha, He.
  split; [reflexivity|]. split; [reflexivity|]. split; [reflexivity|].
  unfold lock_rotation. subst v1. cbn. destruct v. cbn in Hlock. subst. reflexivity.
Qed.

End MouseFacts.

(** A long drag upwards with the right button. *)
Lemma mouse_moves_keep_elevation_witness :
  elevation_in_bounds (elevation (mkView false (Some (0, 0)) tt 0%float 60%float 10%float))
    = true /\
  elevation (mouse_moves unit (fun _ _ _ _ c => c) [(5, 400, RightButton)]
               (mkView false (Some (0, 0)) tt 0%float 60%float 10%float)) = 90%float /\
  elevation_in_bounds
    (elevation (mouse_moves unit (fun _ _ _ _ c => c) [(5, 400, RightButton)]
                  (mkView false (Some (0, 0)) tt 0%float 60%float 10%float))) = true.
Proof.
  assert (Hb : elevation_in_bounds
                 (elevation (mkView false (Some (0, 0)) tt 0%float 60%float 10%float))
               = true) by reflexivity.
  split; [exact Hb|]. split; [vm_compute; reflexivity|].
  exact (proj1 (mouse_moves_keep_elevation unit (fun _ _ _ _ c => c)
                  [(5, 400, RightButton)]
                  (mkView false (Some (0, 0)) tt 0%float 60%float 10%float) Hb)).
Defined.

(** The view as it is created, locked, then dragged with the right button. *)
Lemma lock_rotation_switch_witness :
  azimuth (mouse_moves unit (fun _ _ _ _ c => c) [(40, 30, RightButton)]
             (mousePressEvent unit 0 0
                (fst (lock_rotation unit (mkView false None tt 0%float 0%float 10%float)
                        (mkWindow [] [] [])))))
    = 0%float.
Proof.
  exact (proj1 (lock_rotation_switch unit (fun _ _ _ _ c => c) [(40, 30, RightButton)]
                  0 0 (mkView false None tt 0%float 0%float 10%float)
                  (mkWindow [] [] []) eq_refl)).
Defined.

